(** * Trino driver for SQLTools: a shallow embedding of [ls/driver.ts]

    The driver is a thin adapter between the host (SQLTools) and the
    presto/trino client library.  This development models

    - the connection wrapper ([open], [close]) over the memoized
      [connection] field,
    - the result translator ([executeQuery], the [onData] / [callback]
      pair, and the per-statement [then] / [catch] of [query]),
    - the explorer adapter ([getChildrenForItem], [getChildrenForGroup]),

    and states the properties the driver's specification gives for them.

    Asynchronous code is modelled by a small promise monad over an explicit
    state: a computation takes the state and yields a settled or pending
    promise together with the new state. *)

From stdpp Require Import base option list gmap strings pretty.
From Stdlib Require Import ZArith Ascii String Lia.

Local Open Scope string_scope.
Local Open Scope list_scope.

(** ** Values crossing the engine boundary *)

(** A JavaScript value found in a result cell. *)
Inductive JsValue : Type :=
| VNull
| VBool (b : bool)
| VNum (n : Z)
| VStr (s : string).

(** An error object as delivered by the client library's error-first
    callbacks or thrown by its constructor.  The driver only ever reads
    [message]; [err_ref] stands for the identity of the object. *)
Record JsError : Type := mkError {
  err_ref : nat;
  message : string
}.

(** [type Columns = Array<{ name: string; type: string }>] *)
Record Column : Type := mkColumn {
  name : string;
  type : string
}.

(** [type Rows = Array<{ [key: string]: any }>]: one row is a plain object
    used as a map from column name to value. *)
Abbreviation RowRecord := (gmap string JsValue).

(** [type QueryResult = [Query, Rows, Columns]] *)
Definition QueryResult : Type := string * list RowRecord * list Column.

(** ** Promises *)

(** The state of a promise once the events that can settle it are over.
    [Pending] is a promise that is never settled: awaiting it hangs the
    caller. *)
Inductive Promise (A : Type) : Type :=
| Resolved (a : A)
| Rejected (error : JsError)
| Pending.

Arguments Resolved {A} a.
Arguments Rejected {A} error.
Arguments Pending {A}.

(** ** Host-side records *)

Module NSDatabase.

(** What [prepareMessage] of the base driver builds. *)
Record Message : Type := mkMessage {
  text : string;
  date : nat
}.

(** [NSDatabase.IResult]; a field the driver leaves out of an object
    literal is [None]. *)
Record IResult : Type := mkIResult {
  requestId : option string;
  resultId : string;
  connId : string;
  cols : list string;
  results : list RowRecord;
  messages : list Message;
  query : string;
  error : option bool;
  rawError : option JsError
}.

End NSDatabase.

(** ** The connection *)

Record Credentials : Type := mkCredentials {
  host : string;
  port : Z;
  catalog : string;
  schema : string;
  user : string;
  password : option string
}.

(** The object handed to [new presto.Client(...)]. *)
Record ConnOptions : Type := mkConnOptions {
  o_host : string;
  o_port : Z;
  o_catalog : string;
  o_schema : string;
  o_user : string;
  o_engine : string;
  o_source : string;
  basic_auth : option (string * string)
}.

(** A client handle.  [client_ref] is the identity of the instance: the
    number of constructor calls that preceded the one that built it. *)
Record Client : Type := mkClient {
  client_ref : nat;
  client_opts : ConnOptions
}.

(** ** What the engine does with one [execute] call *)

(** One invocation of the [data] callback: [(error, rows, columns, _)]. *)
Record DataCall : Type := mkDataCall {
  d_error : option JsError;
  d_rows : list (list JsValue);
  d_columns : list Column
}.

(** The callbacks the client library fires for one statement: zero or more
    [data] calls, then the completion [callback] with its error argument
    ([Some None] is success), or no completion at all ([None]). *)
Record Response : Type := mkResponse {
  batches : list DataCall;
  completion : option (option JsError)
}.

(** ** External collaborators

    Everything the driver file imports and calls but does not define. *)
Class Collaborators : Type := {
  (** [this.prepareMessage] of [@sqltools/base-driver]. *)
  prepareMessage : string -> NSDatabase.Message;
  (** [this.getId()] of [@sqltools/base-driver]. *)
  getId : Credentials -> string;
  (** [uuid.v4]: the n-th identifier generated. *)
  generateId : nat -> string;
  (** [QueryParser.statements] of [./parser]. *)
  statements : string -> list string;
  (** [new presto.Client(opts)]: given the constructor calls made so far,
      [Some e] when the constructor throws [e]. *)
  construct : list ConnOptions -> ConnOptions -> option JsError;
  (** [db.execute]: given the statements already executed, the callbacks
      fired for this one.  An exception thrown by [execute] itself rejects
      the promise of [executeQuery] exactly as an error passed to the
      completion callback does, and is represented that way. *)
  execute : Client -> list string -> string -> Response
}.

(** ** Driver state *)

(** The fields of the driver object the code reads and writes, with the
    history of the calls it made to its collaborators. *)
Record State : Type := mkState {
  credentials : Credentials;
  connection : option (Promise Client);
  ctor_log : list ConnOptions;
  exec_log : list string;
  ids : nat
}.

Definition set_connection (c : option (Promise Client)) (s : State) : State :=
  mkState (credentials s) c (ctor_log s) (exec_log s) (ids s).

Definition log_ctor (o : ConnOptions) (s : State) : State :=
  mkState (credentials s) (connection s) (ctor_log s ++ [o]) (exec_log s) (ids s).

Definition log_exec (q : string) (s : State) : State :=
  mkState (credentials s) (connection s) (ctor_log s) (exec_log s ++ [q]) (ids s).

Definition bump_ids (s : State) : State :=
  mkState (credentials s) (connection s) (ctor_log s) (exec_log s) (S (ids s)).

(** ** The promise monad *)

Definition Async (A : Type) : Type := State -> Promise A * State.

Definition resolve {A} (a : A) : Async A := fun s => (Resolved a, s).

Definition reject {A} (e : JsError) : Async A := fun s => (Rejected e, s).

(** [await m] followed by [k]; also [m.then(k)]. *)
Definition await {A B} (m : Async A) (k : A -> Async B) : Async B :=
  fun s =>
    match m s with
    | (Resolved a, s') => k a s'
    | (Rejected e, s') => (Rejected e, s')
    | (Pending, s') => (Pending, s')
    end.

(** [m.catch(h)] *)
Definition catch {A} (m : Async A) (h : JsError -> Async A) : Async A :=
  fun s =>
    match m s with
    | (Rejected e, s') => h e s'
    | r => r
    end.

Notation "'let*' x ':=' m 'in' k" := (await m (fun x => k))
  (at level 10, x name, m at level 100, k at level 200).

(** Awaiting a promise that already exists. *)
Definition promise {A} (p : Promise A) : Async A := fun s => (p, s).

(** Reading and writing the driver object. *)
Definition get : Async State := fun s => (Resolved s, s).

Definition modify (f : State -> State) : Async unit :=
  fun s => (Resolved tt, f s).

(** JavaScript truthiness of a string-or-undefined field. *)
Definition truthy (x : option string) : bool :=
  match x with
  | Some s => negb (String.eqb s EmptyString)
  | None => false
  end.

(** ** Result translation: the callbacks of [executeQuery] *)

(** [data[key] = value] on an object created by [{}].  Every key becomes an
    own property except ["__proto__"], which is an accessor inherited from
    [Object.prototype]: assigning through it never adds a key. *)
Definition js_set (key : string) (value : JsValue) (data : RowRecord) : RowRecord :=
  if decide (key = "__proto__") then data else <[key := value]> data.

(** [row.forEach((value, idx) => (data[columns[idx].name] = value))],
    started at index [idx].  [None] is the [TypeError] raised by
    [columns[idx].name] when [columns] has no element at [idx]. *)
Fixpoint row_forEach (columns : list Column) (idx : nat) (row : list JsValue)
    (data : RowRecord) : option RowRecord :=
  match row with
  | [] => Some data
  | value :: rest =>
      match columns !! idx with
      | Some col => row_forEach columns (S idx) rest (js_set (name col) value data)
      | None => None
      end
  end.

(** [rows.forEach(row => { const data = {}; ...; results.push(data) })].
    The boolean tells whether the loop was left by an exception; the rows
    pushed before it stay in [results]. *)
Fixpoint rows_forEach (columns : list Column) (rows : list (list JsValue))
    (results : list RowRecord) : list RowRecord * bool :=
  match rows with
  | [] => (results, false)
  | row :: rest =>
      match row_forEach columns 0 row ∅ with
      | Some data => rows_forEach columns rest (results ++ [data])
      | None => (results, true)
      end
  end.

(** The variables captured by the two callbacks and the promise they
    settle. *)
Record Executor : Type := mkExecutor {
  results : list RowRecord;
  cols : list Column;
  settled : Promise QueryResult
}.

(** Settling a promise a second time does nothing. *)
Definition settle {A} (p new : Promise A) : Promise A :=
  match p with
  | Pending => new
  | _ => p
  end.

Definition onData (d : DataCall) (st : Executor) : Executor * bool :=
  match d_error d with
  | Some error =>
      (mkExecutor (results st) (cols st) (settle (settled st) (Rejected error)),
       false)
  | None =>
      let '(results', threw) := rows_forEach (d_columns d) (d_rows d) (results st) in
      (mkExecutor results' (d_columns d) (settled st), threw)
  end.

Definition callback (query : string) (error : option JsError) (st : Executor)
    : Executor :=
  match error with
  | Some error =>
      mkExecutor (results st) (cols st) (settle (settled st) (Rejected error))
  | None =>
      mkExecutor (results st) (cols st)
        (settle (settled st) (Resolved (query, results st, cols st)))
  end.

Inductive Event : Type :=
| OnData (d : DataCall)
| Callback (error : option JsError).

Definition events (r : Response) : list Event :=
  map OnData (batches r) ++
  match completion r with
  | Some error => [Callback error]
  | None => []
  end.

(** The client library invokes the callbacks from its own I/O handlers, one
    after the other.  An exception that escapes [onData] unwinds into the
    library, which delivers nothing further for the statement. *)
Fixpoint deliver (query : string) (evs : list Event) (st : Executor) : Executor :=
  match evs with
  | [] => st
  | OnData d :: rest =>
      let '(st', threw) := onData d st in
      if threw then st' else deliver query rest st'
  | Callback error :: rest => deliver query rest (callback query error st)
  end.

(** The promise built by [executeQuery] for a given response. *)
Definition translate (query : string) (r : Response) : Promise QueryResult :=
  settled (deliver query (events r) (mkExecutor [] [] Pending)).

(** ** Message texts *)

(** [s.replace(/\n/g, " ")] *)
Fixpoint replace_newlines (s : string) : string :=
  match s with
  | EmptyString => EmptyString
  | String c rest =>
      String (if Ascii.eqb c "010"%char then " "%char else c) (replace_newlines rest)
  end.

(** [parts.filter(Boolean).join(" ")] on an array of strings. *)
Definition filter_join (parts : list string) : string :=
  String.concat " " (List.filter (fun p => negb (String.eqb p EmptyString)) parts).

(** The second argument of [query]. *)
Record QueryOptions : Type := mkQueryOptions {
  opt_requestId : option string
}.

(** [for (const x of xs) { acc.push(await body(x)) }; return acc] *)
Fixpoint for_of {A} (xs : list string) (body : string -> Async A) (acc : list A)
    : Async (list A) :=
  match xs with
  | [] => resolve acc
  | x :: rest =>
      let* item := body x in
      for_of rest body (acc ++ [item])
  end.

Section Driver.

Context `{Collaborators}.

(** *** Connection wrapper *)

Definition connOptions (c : Credentials) : ConnOptions :=
  let base :=
    mkConnOptions (host c) (port c) (catalog c) (schema c) (user c)
                  "trino" "sqltools-driver" None in
  if truthy (password c) then
    mkConnOptions (o_host base) (o_port base) (o_catalog base)
                  (o_schema base) (o_user base) (o_engine base)
                  (o_source base)
                  (Some (user c, default EmptyString (password c)))
  else base.

Definition open : Async Client :=
  fun s =>
    match connection s with
    | Some p => promise p s
    | None =>
        let opts := connOptions (credentials s) in
        (* try { new presto.Client(connOptions) } *)
        match construct (ctor_log s) opts with
        | Some error => reject error (log_ctor opts s)
        | None =>
            let conn := mkClient (List.length (ctor_log s)) opts in
            let s1 := set_connection (Some (Resolved conn)) (log_ctor opts s) in
            promise (Resolved conn) s1
        end
    end.

Definition close : Async unit :=
  fun s =>
    match connection s with
    | None => resolve tt s
    | Some p =>
        (let* _ := promise p in
         modify (set_connection None)) s
    end.

(** *** Query execution *)

Definition executeQuery (db : Client) (query : string) : Async QueryResult :=
  fun s =>
    promise (translate query (execute db (exec_log s) query)) (log_exec query s).

(** One call of [generateId()]. *)
Definition newId : Async string :=
  fun s => (Resolved (generateId (ids s)), bump_ids s).

(** [this.getId()] *)
Definition thisId : Async string :=
  fun s => (Resolved (getId (credentials s)), s).

(** The [then] handler of the loop body. *)
Definition onFulfilled (requestId : option string) (result : QueryResult)
    : Async NSDatabase.IResult :=
  let '(q, rows, columns) := result in
  let* resultId := newId in
  let* connId := thisId in
  resolve
    {| NSDatabase.requestId := requestId;
       NSDatabase.resultId := resultId;
       NSDatabase.connId := connId;
       NSDatabase.cols := map name columns;
       NSDatabase.results := rows;
       NSDatabase.messages :=
         [prepareMessage
            (filter_join
               ["Successfully executed. " +:+ pretty (List.length rows)
                  +:+ " rows were affected."])];
       NSDatabase.query := q;
       NSDatabase.error := None;
       NSDatabase.rawError := None |}.

(** The [catch] handler of the loop body. *)
Definition onRejected (requestId : option string) (query : string)
    (error : JsError) : Async NSDatabase.IResult :=
  let* connId := thisId in
  let* resultId := newId in
  resolve
    {| NSDatabase.connId := connId;
       NSDatabase.requestId := requestId;
       NSDatabase.resultId := resultId;
       NSDatabase.cols := [];
       NSDatabase.messages :=
         [prepareMessage (filter_join [replace_newlines (message error)])];
       NSDatabase.error := Some true;
       NSDatabase.rawError := Some error;
       NSDatabase.query := query;
       NSDatabase.results := [] |}.

Definition query (query : string) (opt : QueryOptions)
    : Async (list NSDatabase.IResult) :=
  let requestId := opt_requestId opt in
  let* db := open in
  for_of (statements query)
    (fun q =>
       catch (let* result := executeQuery db q in onFulfilled requestId result)
             (onRejected requestId query))
    [].

End Driver.

(** ** Explorer adapter *)

(** [ContextValue] of [@sqltools/types]: the tags the driver names, and
    [OTHER] for every remaining tag of the host's enumeration. *)
Inductive ContextValue : Type :=
| CONNECTION
| CONNECTED_CONNECTION
| SCHEMA
| TABLE
| VIEW
| RESOURCE_GROUP
| COLUMN
| OTHER (tag : string).

(** A node of the host's navigation tree, as far as the driver reads it. *)
Record Item : Type := mkItem {
  item_label : string;
  item_type : ContextValue;
  item_childType : option ContextValue
}.

(** [MConnectionExplorer.IChildItem] *)
Record IChildItem : Type := mkChildItem {
  label : string;
  child_type : ContextValue;
  iconId : string;
  childType : ContextValue
}.

(** The catalog queries of [./queries], by name and argument. *)
Inductive CatalogQuery : Type :=
| fetchSchemas (database : string)
| fetchColumns (table : Item)
| fetchTables (schema : Item)
| fetchViews (schema : Item).

(** What an explorer method returns: the literal array it builds, or the
    promise of [this.queryResults(q)] of the base driver. *)
Inductive Children : Type :=
| items (l : list IChildItem)
| queryResults (q : CatalogQuery).

Definition getChildrenForGroup (parent item : Item) : Children :=
  match item_childType item with
  | Some TABLE => queryResults (fetchTables parent)
  | Some VIEW => queryResults (fetchViews parent)
  | _ => items []
  end.

Definition getChildrenForItem (c : Credentials) (item parent : Item) : Children :=
  match item_type item with
  | CONNECTION | CONNECTED_CONNECTION =>
      queryResults (fetchSchemas (catalog c))
  | SCHEMA =>
      items [ mkChildItem "Tables" RESOURCE_GROUP "folder" TABLE;
              mkChildItem "Views" RESOURCE_GROUP "folder" VIEW ]
  | TABLE | VIEW => queryResults (fetchColumns item)
  | RESOURCE_GROUP => getChildrenForGroup parent item
  | _ => items []
  end.

(** ** Statement parser *)

Module QueryParser.

(** Lexical state of the splitter.  [Dash] and [Slash] are code states in
    which the previous character may open a comment; [BlockStar] is a
    block comment whose previous character may close it. *)
Inductive Mode : Type :=
| Code
| Dash
| Slash
| SingleQuoted
| DoubleQuoted
| LineComment
| BlockComment
| BlockStar.

Definition code_step (c : ascii) : Mode :=
  if Ascii.eqb c "'"%char then SingleQuoted
  else if Ascii.eqb c "034"%char then DoubleQuoted
  else if Ascii.eqb c "-"%char then Dash
  else if Ascii.eqb c "/"%char then Slash
  else Code.

Definition step (m : Mode) (c : ascii) : Mode :=
  match m with
  | Code => code_step c
  | Dash => if Ascii.eqb c "-"%char then LineComment else code_step c
  | Slash => if Ascii.eqb c "*"%char then BlockComment else code_step c
  | SingleQuoted => if Ascii.eqb c "'"%char then Code else SingleQuoted
  | DoubleQuoted => if Ascii.eqb c "034"%char then Code else DoubleQuoted
  | LineComment => if Ascii.eqb c "010"%char then Code else LineComment
  | BlockComment => if Ascii.eqb c "*"%char then BlockStar else BlockComment
  | BlockStar =>
      if Ascii.eqb c "/"%char then Code
      else if Ascii.eqb c "*"%char then BlockStar
      else BlockComment
  end.

(** Outside every literal and comment. *)
Definition top_level (m : Mode) : bool :=
  match m with
  | Code | Dash | Slash => true
  | _ => false
  end.

(** The lexical state reached after reading [s] from state [m]. *)
Definition run (m : Mode) (s : list ascii) : Mode := fold_left step s m.

Definition is_semicolon (c : ascii) : bool := Ascii.eqb c ";"%char.

(** The pieces of [s] between the semicolons met at top level. *)
Fixpoint pieces (m : Mode) (s : list ascii) : list (list ascii) :=
  match s with
  | [] => [[]]
  | c :: rest =>
      if top_level m && is_semicolon c then [] :: pieces Code rest
      else
        match pieces (step m c) rest with
        | p :: ps => (c :: p) :: ps
        | [] => [[c]]
        end
  end.

Definition is_space (c : ascii) : bool :=
  let n := nat_of_ascii c in
  (Nat.leb 9 n && Nat.leb n 13) || Nat.eqb n 32.

Fixpoint trim_start (s : list ascii) : list ascii :=
  match s with
  | [] => []
  | c :: rest => if is_space c then trim_start rest else s
  end.

Fixpoint trim_end (s : list ascii) : list ascii :=
  match s with
  | [] => []
  | c :: rest =>
      match trim_end rest with
      | [] => if is_space c then [] else [c]
      | t => c :: t
      end
  end.

Definition trim (s : list ascii) : list ascii := trim_end (trim_start s).

Definition non_empty (s : list ascii) : bool :=
  match s with
  | [] => false
  | _ => true
  end.

Definition split (s : list ascii) : list (list ascii) :=
  List.filter non_empty (map trim (pieces Code s)).

(** Modelled from the spec: [QueryParser.statements] of [./parser], which
    the driver imports and whose source is not part of the driver file.
    The input is cut at every semicolon outside quoted literals
    (single- or double-quoted) and comments (line and block); every piece
    is trimmed and the empty ones are dropped. *)
Definition statements (query : string) : list string :=
  map string_of_list_ascii (split (list_ascii_of_string query)).

Definition trim_string (s : string) : string :=
  string_of_list_ascii (trim (list_ascii_of_string s)).

(** The lexical state at the end of [s], read from the start of a
    statement. *)
Definition mode_after (s : string) : Mode :=
  run Code (list_ascii_of_string s).

End QueryParser.

(** ** Vocabulary of the properties *)

(** The set of column names of a descriptor list. *)
Definition column_names (columns : list Column) : gset string :=
  list_to_set (map name columns).

(** The engine honours its own column list in one [data] call: the call
    carries the column list [columns] and every row has one value per
    column. *)
Definition batch_matches (columns : list Column) (d : DataCall) : Prop :=
  d_columns d = columns /\
  Forall (fun row => List.length row = List.length columns) (d_rows d).

(** What the callbacks maintain while the engine honours [columns]. *)
Definition keyed_by (columns : list Column) (st : Executor) : Prop :=
  Forall (fun data => dom data = column_names columns) (results st) /\
  (cols st = columns \/ (cols st = [] /\ results st = [])) /\
  (forall q rows cs,
     settled st = Resolved (q, rows, cs) ->
     Forall (fun data => dom data = column_names cs) rows).

Definition event_matches (columns : list Column) (ev : Event) : Prop :=
  match ev with
  | OnData d => batch_matches columns d
  | Callback _ => True
  end.

Section Loop.

Context `{Collaborators}.

(** The body of the [for] loop of [query], for a given handle, request
    identifier and submitted text. *)
Definition loop_body (db : Client) (requestId : option string) (query0 : string)
    (q : string) : Async NSDatabase.IResult :=
  catch (let* result := executeQuery db q in onFulfilled requestId result)
        (onRejected requestId query0).

(** The driver state once the first [i] statements of [qs] have been
    processed from [s]. *)
Definition state_after (s : State) (qs : list string) (i : nat) : State :=
  mkState (credentials s) (connection s) (ctor_log s)
          (exec_log s ++ take i qs) (ids s + i).

(** The promise [executeQuery] builds for [q] as the [i]-th statement of
    [qs], the loop having started in state [s]. *)
Definition nth_outcome (db : Client) (s : State) (qs : list string) (i : nat)
    (q : string) : Promise QueryResult :=
  translate q (execute db (exec_log s ++ take i qs) q).

(** No statement of [qs] hangs. *)
Definition all_settle (db : Client) (s : State) (qs : list string) : Prop :=
  forall i q, qs !! i = Some q -> nth_outcome db s qs i q <> Pending.

End Loop.

(** ** Connection test *)

(** What the promise of [testConnection] settles to.  [TestFailed msg] is
    the rejection with the object literal [{ message: msg }];
    [TestRejected e] is a rejection passed on from [open] or [query]. *)
Inductive TestOutcome : Type :=
| TestPassed
| TestFailed (msg : string)
| TestRejected (error : JsError)
| TestPending.

(** The line feed used by [join] in [testConnection]. *)
Definition LF : string := String "010"%char EmptyString.

(** JavaScript truthiness of an optional boolean field. *)
Definition flagged (x : option bool) : bool :=
  match x with
  | Some b => b
  | None => false
  end.

Section ConnectionTest.

Context `{Collaborators}.

Definition testConnection : State -> TestOutcome * State :=
  fun s =>
    match open s with
    | (Resolved _, s1) =>
        match query "SELECT 1" (mkQueryOptions None) s1 with
        | (Resolved testSelect, s2) =>
            match testSelect with
            | first :: _ =>
                if flagged (NSDatabase.error first) then
                  let msg :=
                    String.concat LF
                      (map NSDatabase.text (NSDatabase.messages first)) in
                  (TestFailed msg, s2)
                else (TestPassed, s2)
            | [] => (TestPassed, s2)
            end
        | (Rejected error, s2) => (TestRejected error, s2)
        | (Pending, s2) => (TestPending, s2)
        end
    | (Rejected error, s1) => (TestRejected error, s1)
    | (Pending, s1) => (TestPending, s1)
    end.

End ConnectionTest.

(** ** Search adapter *)

(** The search queries of [./queries], by name and parameter object. *)
Inductive SearchQuery : Type :=
| searchTables (params : gmap string JsValue)
| searchColumns (params : gmap string JsValue).

(** What [searchItems] returns: the empty array, or the promise of
    [this.queryResults(q)] of the base driver. *)
Inductive SearchItems : Type :=
| no_items
| searchResults (q : SearchQuery).

(** [{ search }] *)
Definition search_param (search : string) : gmap string JsValue :=
  {[ "search" := VStr search ]}.

(** [{ search, ..._extraParams }]: the properties spread last win. *)
Definition spread_params (search : string) (extraParams : gmap string JsValue)
    : gmap string JsValue :=
  extraParams ∪ search_param search.

Definition searchItems (itemType : ContextValue) (search : string)
    (extraParams : gmap string JsValue) : SearchItems :=
  match itemType with
  | TABLE | VIEW => searchResults (searchTables (search_param search))
  | COLUMN => searchResults (searchColumns (spread_params search extraParams))
  | _ => no_items
  end.

(** ** Further vocabulary *)

(** A [data] call without an error argument. *)
Definition error_free (d : DataCall) : Prop := d_error d = None.

(** No row of the call is longer than the call's column list. *)
Definition fits (d : DataCall) : Prop :=
  Forall (fun row => List.length row <= List.length (d_columns d)) (d_rows d).

(** The mapping [onData] pushes for one row. *)
Definition row_record (columns : list Column) (row : list JsValue) : RowRecord :=
  default ∅ (row_forEach columns 0 row ∅).

Definition batch_records (d : DataCall) : list RowRecord :=
  map (row_record (d_columns d)) (d_rows d).


(** A child node handed back by the host as the item to expand. *)
Definition as_item (c : IChildItem) : Item :=
  mkItem (label c) (child_type c) (Some (childType c)).

Section Probe.

Context `{Collaborators}.

(** The verdict [testConnection] reaches on the first statement of its
    probe. *)
Definition probe_verdict (db : Client) (s1 : State) : TestOutcome :=
  match statements "SELECT 1" with
  | [] => TestPassed
  | q :: _ =>
      match translate q (execute db (exec_log s1) q) with
      | Rejected e =>
          TestFailed (NSDatabase.text (prepareMessage (replace_newlines (message e))))
      | _ => TestPassed
      end
  end.

End Probe.

(** ** A sample environment

    A concrete host, constructor and engine on which the properties are
    exercised. *)

Module Sample.

Definition newline : string := String "010"%char EmptyString.

Definition unresolved_column : JsError :=
  mkError 1 ("line 1:8: Column 'x'" +:+ newline +:+ "cannot be resolved").

Definition fetch_failed : JsError := mkError 2 "status info fetch failed".

Definition refused : JsError := mkError 3 "connect ECONNREFUSED".

Definition one_row (column : string) (n : Z) : Response :=
  mkResponse [mkDataCall None [[VNum n]] [mkColumn column "integer"]] (Some None).

(** The engine: what it fires for the statements of the examples. *)
Definition engine (db : Client) (history : list string) (q : string) : Response :=
  if String.eqb q "SELECT 1" then one_row "_col0" 1
  else if String.eqb q "SELECT 2" then one_row "_col0" 2
  else if String.eqb q "SELECT x" then mkResponse [] (Some (Some unresolved_column))
  else if String.eqb q "SELECT y" then
    mkResponse [mkDataCall (Some fetch_failed) [] []] (Some None)
  else if String.eqb q "SELECT a, b FROM short" then
    mkResponse
      [mkDataCall None [[VNum 1]] [mkColumn "a" "integer"; mkColumn "b" "integer"]]
      (Some None)
  else if String.eqb q "SELECT a FROM drifting" then
    mkResponse
      [mkDataCall None [[VNum 1]] [mkColumn "a" "integer"];
       mkDataCall None [[VNum 2]] [mkColumn "b" "integer"]]
      (Some None)
  else if String.eqb q "SELECT 1 AS __proto__" then one_row "__proto__" 1
  else if String.eqb q "SELECT pg_sleep" then mkResponse [] None
  else mkResponse [] (Some None).

(** The constructor throws for the host [down]; for the host [flaky] it
    throws on the first call only. *)
Definition constructor (history : list ConnOptions) (opts : ConnOptions)
    : option JsError :=
  if String.eqb (o_host opts) "down" then Some refused
  else if String.eqb (o_host opts) "flaky" then
    match history with
    | [] => Some refused
    | _ => None
    end
  else None.

#[export] Instance collaborators : Collaborators := {
  prepareMessage := fun text => NSDatabase.mkMessage text 0;
  getId := fun c => user c +:+ "@" +:+ host c;
  generateId := fun n => "result-" +:+ pretty n;
  statements := QueryParser.statements;
  construct := constructor;
  execute := engine
}.

Definition credentials_for (host : string) : Credentials :=
  mkCredentials host 8080 "hive" "default" "alice" None.

(** A driver that was never opened. *)
Definition fresh (host : string) : State :=
  mkState (credentials_for host) None [] [] 0.

Definition client : Client :=
  mkClient 0 (connOptions (credentials_for "localhost")).

(** The same driver after a successful [open]. *)
Definition opened : State :=
  mkState (credentials_for "localhost") (Some (Resolved client))
          [connOptions (credentials_for "localhost")] [] 0.

Definition no_options : QueryOptions := mkQueryOptions None.

End Sample.

(** A second environment: the connection opens but the engine fails every
    statement. *)

Module Outage.

Definition unavailable : JsError := mkError 4 "503 Service Unavailable".

Definition engine (db : Client) (history : list string) (q : string) : Response :=
  mkResponse [] (Some (Some unavailable)).

#[export] Instance collaborators : Collaborators := {
  prepareMessage := fun text => NSDatabase.mkMessage text 0;
  getId := fun c => user c +:+ "@" +:+ host c;
  generateId := fun n => "result-" +:+ pretty n;
  statements := QueryParser.statements;
  construct := fun _ _ => None;
  execute := engine
}.

End Outage.

(** * Properties *)

(** ** Connection wrapper *)

Section ConnectionFacts.

Context `{Collaborators}.

Lemma open_existing (s : State) (p : Promise Client) :
  connection s = Some p -> open s = (p, s).
Proof. intros Hc. unfold open. now rewrite Hc. Qed.

Lemma open_fresh_ok (s : State) :
  connection s = None ->
  construct (ctor_log s) (connOptions (credentials s)) = None ->
  let conn := mkClient (List.length (ctor_log s)) (connOptions (credentials s)) in
  open s = (Resolved conn,
            set_connection (Some (Resolved conn))
              (log_ctor (connOptions (credentials s)) s)).
Proof. intros Hc Hk. unfold open. now rewrite Hc, Hk. Qed.

Lemma open_fresh_throws (s : State) (e : JsError) :
  connection s = None ->
  construct (ctor_log s) (connOptions (credentials s)) = Some e ->
  open s = (Rejected e, log_ctor (connOptions (credentials s)) s).
Proof. intros Hc Hk. unfold open. now rewrite Hc, Hk. Qed.

(** A successful [open] leaves the resolved handle memoized. *)
Lemma open_resolved_memoized (s s1 : State) (db : Client) :
  open s = (Resolved db, s1) -> connection s1 = Some (Resolved db).
Proof.
  unfold open. destruct (connection s) as [p|] eqn:Hc.
  - unfold promise. intros [= -> ->]. exact Hc.
  - destruct (construct _ _); unfold reject, promise; intros [= <- <-]; reflexivity.
Qed.

(** C6: when a handle is memoized, [open] returns it and leaves the
    driver and the constructor log untouched; hence a second [open]
    after a successful one resolves to the very same client instance. *)
Theorem open_returns_memoized_handle (s s1 : State) (r : Promise Client) :
  open s = (r, s1) ->
  (forall p, connection s = Some p -> r = p /\ s1 = s) /\
  (forall db, r = Resolved db ->
     open s1 = (Resolved db, s1) /\ ctor_log (snd (open s1)) = ctor_log s1).
Proof.
  intros Hopen. split.
  - intros p Hc. rewrite (open_existing s p Hc) in Hopen.
    now inversion Hopen.
  - intros db ->. pose proof (open_resolved_memoized _ _ _ Hopen) as Hm.
    rewrite (open_existing _ _ Hm). split; reflexivity.
Qed.

(** C7: when no handle is memoized and the client constructor throws,
    [open] is rejected with the thrown error and [connection] stays
    unset, so the next [open] calls the constructor again. *)
Theorem open_rejects_when_constructor_throws (s : State) (e : JsError) :
  connection s = None ->
  construct (ctor_log s) (connOptions (credentials s)) = Some e ->
  exists s1,
    open s = (Rejected e, s1) /\
    connection s1 = None /\
    ctor_log s1 = ctor_log s ++ [connOptions (credentials s)] /\
    ctor_log (snd (open s1)) = ctor_log s1 ++ [connOptions (credentials s1)].
Proof.
  intros Hc Hk. eexists. split; [apply (open_fresh_throws s e Hc Hk)|].
  split; [exact Hc|]. split; [reflexivity|].
  unfold open. simpl. rewrite Hc. clear Hk.
  destruct (construct _ _); reflexivity.
Qed.

(** C8: [close] on a driver without a memoized handle resolves and
    changes nothing; on a driver whose handle was opened it awaits the
    handle, resolves, and leaves [connection] unset. *)
Theorem close_releases_handle (s : State) :
  (connection s = None -> close s = (Resolved tt, s)) /\
  (forall s0 db,
     open s0 = (Resolved db, s) ->
     close s = (Resolved tt, set_connection None s) /\
     connection (snd (close s)) = None /\
     ctor_log (snd (close s)) = ctor_log s /\
     exec_log (snd (close s)) = exec_log s).
Proof.
  split.
  - intros Hc. unfold close. now rewrite Hc.
  - intros s0 db Hopen. apply open_resolved_memoized in Hopen.
    unfold close. rewrite Hopen. repeat split.
Qed.

End ConnectionFacts.

(** ** Explorer adapter *)

(** C9: a schema node has exactly the two static groups "Tables" and
    "Views", tagged with the child types table and view; a node whose tag
    is none of connection, connected-connection, schema, table, view and
    resource-group has no children. *)
Theorem getChildrenForItem_static (c : Credentials) (item parent : Item) :
  (item_type item = SCHEMA ->
     getChildrenForItem c item parent =
       items [ mkChildItem "Tables" RESOURCE_GROUP "folder" TABLE;
               mkChildItem "Views" RESOURCE_GROUP "folder" VIEW ]) /\
  (item_type item <> CONNECTION ->
   item_type item <> CONNECTED_CONNECTION ->
   item_type item <> SCHEMA ->
   item_type item <> TABLE ->
   item_type item <> VIEW ->
   item_type item <> RESOURCE_GROUP ->
     getChildrenForItem c item parent = items []).
Proof.
  unfold getChildrenForItem. split.
  - intros ->. reflexivity.
  - intros. destruct (item_type item); congruence.
Qed.

(** ** Result translation *)

Section TranslationFacts.

Lemma js_set_dom (key : string) (value : JsValue) (data : RowRecord) :
  key <> "__proto__" -> dom (js_set key value data) = {[ key ]} ∪ dom data.
Proof.
  intros Hk. unfold js_set. destruct (decide _); [done|].
  apply dom_insert_L.
Qed.

Lemma row_forEach_dom (columns : list Column) :
  "__proto__" ∉ map name columns ->
  forall (row : list JsValue) (idx : nat) (data : RowRecord),
    idx + List.length row <= List.length columns ->
    exists data',
      row_forEach columns idx row data = Some data' /\
      dom data' =
        dom data ∪ column_names (take (List.length row) (drop idx columns)).
Proof.
  intros Hproto. induction row as [|value rest IH]; intros idx data Hlen.
  - exists data. split; [reflexivity|]. simpl. unfold column_names.
    rewrite take_0. simpl. now rewrite (right_id_L ∅ (∪)).
  - simpl in Hlen. simpl.
    destruct (columns !! idx) as [col|] eqn:Hcol.
    2:{ apply lookup_ge_None in Hcol. lia. }
    destruct (IH (S idx) (js_set (name col) value data)) as (data' & Hrun & Hdom);
      [lia|].
    exists data'. split; [exact Hrun|]. rewrite Hdom.
    assert (Hne : name col <> "__proto__").
    { intros Heq. apply Hproto. rewrite <- Heq.
      apply list_elem_of_fmap. exists col. split; [reflexivity|].
      eapply list_elem_of_lookup_2; eauto. }
    rewrite (js_set_dom _ _ _ Hne).
    rewrite (drop_S columns col idx Hcol). unfold column_names. simpl.
    rewrite (comm_L (∪) {[name col]} (dom data)).
    now rewrite <- (assoc_L (∪)).
Qed.

Lemma row_forEach_keys (columns : list Column) (row : list JsValue) :
  "__proto__" ∉ map name columns ->
  List.length row = List.length columns ->
  exists data,
    row_forEach columns 0 row ∅ = Some data /\ dom data = column_names columns.
Proof.
  intros Hproto Hlen.
  destruct (row_forEach_dom columns Hproto row 0 ∅) as (data & Hrun & Hdom);
    [lia|].
  exists data. split; [exact Hrun|]. rewrite Hdom, dom_empty_L, Hlen.
  rewrite drop_0, firstn_all. now rewrite (left_id_L ∅ (∪)).
Qed.

Lemma rows_forEach_keys (columns : list Column) :
  "__proto__" ∉ map name columns ->
  forall (rows : list (list JsValue)) (acc : list RowRecord),
    Forall (fun row => List.length row = List.length columns) rows ->
    Forall (fun data => dom data = column_names columns) acc ->
    exists acc',
      rows_forEach columns rows acc = (acc', false) /\
      Forall (fun data => dom data = column_names columns) acc'.
Proof.
  intros Hproto. induction rows as [|row rest IH]; intros acc Hrows Hacc.
  - exists acc. split; [reflexivity | exact Hacc].
  - inversion Hrows as [|? ? Hrow Hrest]; subst. simpl.
    destruct (row_forEach_keys columns row Hproto Hrow) as (data & -> & Hdom).
    apply IH; [exact Hrest|].
    apply Forall_app. split; [exact Hacc|]. now constructor.
Qed.

Lemma settle_keeps {A} (P : Promise A -> Prop) (p new : Promise A) :
  P p -> P new -> P (settle p new).
Proof. destruct p; simpl; auto. Qed.

Lemma deliver_keyed_by (query : string) (columns : list Column) :
  "__proto__" ∉ map name columns ->
  forall (evs : list Event) (st : Executor),
    Forall (event_matches columns) evs ->
    keyed_by columns st ->
    keyed_by columns (deliver query evs st).
Proof.
  intros Hproto. induction evs as [|ev rest IH]; intros st Hevs Hst.
  - exact Hst.
  - inversion Hevs as [|? ? Hev Hrest]; subst.
    destruct Hst as (Hres & Hcols & Hset).
    destruct ev as [d|error]; simpl.
    + unfold onData. destruct (d_error d) as [e|].
      * apply IH; [exact Hrest|]. repeat split; simpl; auto.
        intros q rows cs. destruct (settled st); simpl; intros Hq;
          try discriminate; eauto.
      * destruct Hev as [Hc Hrows]. rewrite Hc.
        destruct (rows_forEach_keys columns Hproto (d_rows d) (results st)
                    Hrows Hres) as (acc' & -> & Hacc').
        apply IH; [exact Hrest|]. repeat split; simpl; auto.
    + apply IH; [exact Hrest|]. unfold callback.
      destruct error as [e|]; repeat split; simpl; auto.
      * intros q rows cs. destruct (settled st); simpl; intros Hq;
          try discriminate; eauto.
      * intros q rows cs. destruct (settled st); simpl; intros Hq;
          try discriminate; eauto.
        injection Hq as <- <- <-.
        destruct Hcols as [-> | [-> ->]]; [exact Hres | constructor].
Qed.

Lemma translate_keyed_by (query : string) (columns : list Column) (r : Response) :
  "__proto__" ∉ map name columns ->
  Forall (batch_matches columns) (batches r) ->
  forall q rows cs,
    translate query r = Resolved (q, rows, cs) ->
    Forall (fun data => dom data = column_names cs) rows.
Proof.
  intros Hproto Hb q rows cs. unfold translate.
  apply (deliver_keyed_by query columns Hproto).
  - unfold events. apply Forall_app. split.
    + apply Forall_fmap. exact Hb.
    + destruct (completion r); repeat constructor.
  - repeat split; simpl; auto. discriminate.
Qed.

(** *** When the promise of [executeQuery] is rejected *)

Lemma deliver_rejected_inv (query : string) (evs : list Event) :
  forall (st : Executor) (e : JsError),
    settled (deliver query evs st) = Rejected e ->
    settled st = Rejected e \/
    (exists d, OnData d ∈ evs /\ d_error d = Some e) \/
    Callback (Some e) ∈ evs.
Proof.
  induction evs as [|ev rest IH]; intros st e Hrej; [now left|].
  destruct ev as [d|error]; simpl in Hrej.
  - unfold onData in Hrej. destruct (d_error d) as [e0|] eqn:Hd.
    + destruct (IH _ _ Hrej) as [Hst | [(d' & Hin & Hd') | Hin]].
      * simpl in Hst. destruct (settled st) eqn:Hs; simpl in Hst; auto.
        injection Hst as <-. right. left. exists d. split; [left | exact Hd].
      * right. left. exists d'. split; [now right | exact Hd'].
      * right. right. now right.
    + destruct (rows_forEach _ _ _) as [acc threw].
      destruct threw; [now left|].
      destruct (IH _ _ Hrej) as [Hst | [(d' & Hin & Hd') | Hin]].
      * now left.
      * right. left. exists d'. split; [now right | exact Hd'].
      * right. right. now right.
  - destruct (IH _ _ Hrej) as [Hst | [(d' & Hin & Hd') | Hin]].
    + unfold callback in Hst.
      destruct error as [e0|]; simpl in Hst;
        destruct (settled st) eqn:Hs; simpl in Hst; auto; try discriminate.
      injection Hst as <-. right. right. left.
    + right. left. exists d'. split; [now right | exact Hd'].
    + right. right. now right.
Qed.

(** A rejection carries an error object the engine delivered, through the
    [data] callback or through the completion callback. *)
Lemma translate_rejected_inv (query : string) (r : Response) (e : JsError) :
  translate query r = Rejected e ->
  (exists d, d ∈ batches r /\ d_error d = Some e) \/
  completion r = Some (Some e).
Proof.
  intros Hrej. apply deliver_rejected_inv in Hrej.
  destruct Hrej as [Hst | [(d & Hin & Hd) | Hin]].
  - discriminate.
  - left. exists d. split; [|exact Hd]. unfold events in Hin.
    apply elem_of_app in Hin as [Hin | Hin].
    + apply list_elem_of_fmap in Hin as (d' & [= ->] & Hin). exact Hin.
    + destruct (completion r); [|inversion Hin].
      apply list_elem_of_singleton in Hin. discriminate.
  - right. unfold events in Hin. apply elem_of_app in Hin as [Hin | Hin].
    + apply list_elem_of_fmap in Hin as (d' & Heq & _). discriminate.
    + destruct (completion r) as [c|]; [|inversion Hin].
      apply list_elem_of_singleton in Hin. now injection Hin as <-.
Qed.

(** An error in the first [data] call, or in the completion callback of a
    response without [data] calls, rejects the promise with that error. *)
Lemma translate_first_data_error (query : string) (r : Response) (d : DataCall)
    (rest : list DataCall) (e : JsError) :
  batches r = d :: rest -> d_error d = Some e -> translate query r = Rejected e.
Proof.
  intros Hb Hd. unfold translate, events. rewrite Hb. simpl.
  unfold onData. rewrite Hd. simpl.
  generalize (map OnData rest ++
              match completion r with Some error => [Callback error] | None => [] end).
  intros evs. generalize (@nil RowRecord) as acc, (@nil Column) as cs.
  induction evs as [|ev evs IH]; intros acc cs; [reflexivity|].
  destruct ev as [d'|error]; simpl.
  - unfold onData. destruct (d_error d'); simpl; [apply IH|].
    destruct (rows_forEach _ _ _) as [acc' threw]. destruct threw; [reflexivity | apply IH].
  - unfold callback. destruct error; simpl; apply IH.
Qed.

Lemma translate_completion_error (query : string) (r : Response) (e : JsError) :
  batches r = [] -> completion r = Some (Some e) -> translate query r = Rejected e.
Proof.
  intros Hb Hc. unfold translate, events. now rewrite Hb, Hc.
Qed.

End TranslationFacts.

(** ** Message texts *)

Lemma filter_join_single (s : string) : filter_join [s] = s.
Proof.
  unfold filter_join. simpl. destruct (String.eqb_spec s EmptyString) as [->|Hne].
  - reflexivity.
  - reflexivity.
Qed.

Lemma replace_newlines_length (s : string) :
  String.length (replace_newlines s) = String.length s.
Proof. induction s as [|c rest IH]; simpl; [reflexivity | now rewrite IH]. Qed.

Lemma replace_newlines_get (s : string) (i : nat) :
  String.get i (replace_newlines s) =
    match String.get i s with
    | Some c => Some (if Ascii.eqb c "010"%char then " "%char else c)
    | None => None
    end.
Proof.
  revert i. induction s as [|c rest IH]; intros i; simpl; [reflexivity|].
  destruct i as [|i]; [reflexivity | apply IH].
Qed.

Lemma replace_newlines_flat (s : string) (i : nat) :
  String.get i (replace_newlines s) <> Some "010"%char.
Proof.
  rewrite replace_newlines_get. destruct (String.get i s) as [c|]; [|discriminate].
  destruct (Ascii.eqb_spec c "010"%char) as [->|Hne]; [discriminate|].
  intros [= Heq]. contradiction.
Qed.

(** ** Query execution *)

Lemma deliver_keeps_query (query : string) (evs : list Event) :
  forall st : Executor,
    (forall q rows cs, settled st = Resolved (q, rows, cs) -> q = query) ->
    forall q rows cs,
      settled (deliver query evs st) = Resolved (q, rows, cs) -> q = query.
Proof.
  induction evs as [|ev rest IH]; intros st Hst; [exact Hst|].
  destruct ev as [d|error]; simpl.
  - unfold onData. destruct (d_error d) as [e|].
    + apply IH. simpl. intros q rows cs.
      destruct (settled st); simpl; intros Hq; try discriminate; eauto.
    + destruct (rows_forEach _ _ _) as [acc threw].
      destruct threw; [exact Hst | apply IH; exact Hst].
  - apply IH. unfold callback. destruct error as [e|]; simpl; intros q rows cs;
      destruct (settled st); simpl; intros Hq; try discriminate; eauto.
    now injection Hq as <- _ _.
Qed.

(** The tuple [executeQuery] resolves with carries the statement it was
    called with. *)
Lemma translate_query (query : string) (r : Response) q rows cs :
  translate query r = Resolved (q, rows, cs) -> q = query.
Proof.
  unfold translate. apply deliver_keeps_query. simpl. discriminate.
Qed.

Section QueryFacts.

Context `{Collaborators}.

Lemma query_unfold (query0 : string) (opt : QueryOptions) :
  query query0 opt =
    (let* db := open in
     for_of (statements query0) (loop_body db (opt_requestId opt) query0) []).
Proof. reflexivity. Qed.

Lemma executeQuery_nth (db : Client) (s : State) (qs : list string) (i : nat)
    (q : string) :
  executeQuery db q (state_after s qs i) =
    (nth_outcome db s qs i q, log_exec q (state_after s qs i)).
Proof. reflexivity. Qed.

Lemma state_after_0 (s : State) (qs : list string) : state_after s qs 0 = s.
Proof.
  destruct s. unfold state_after. simpl.
  now rewrite take_0, app_nil_r, Nat.add_0_r.
Qed.

Lemma state_after_S (s : State) (q : string) (rest : list string) (i : nat) :
  state_after (bump_ids (log_exec q s)) rest i = state_after s (q :: rest) (S i).
Proof.
  unfold state_after. simpl. f_equal.
  - now rewrite <- app_assoc.
  - lia.
Qed.

Lemma loop_body_run (db : Client) (rid : option string) (query0 q : string)
    (s : State) :
  loop_body db rid query0 q s =
    match translate q (execute db (exec_log s) q) with
    | Resolved result => onFulfilled rid result (log_exec q s)
    | Rejected error => onRejected rid query0 error (log_exec q s)
    | Pending => (Pending, log_exec q s)
    end.
Proof.
  unfold loop_body, catch, await, executeQuery, promise.
  destruct (translate _ _) as [[[q' rows] columns]|e|]; reflexivity.
Qed.

Lemma onFulfilled_run (rid : option string) (q : string)
    (rows : list RowRecord) (columns : list Column) (s : State) :
  onFulfilled rid (q, rows, columns) s =
    (Resolved
       (NSDatabase.mkIResult rid (generateId (ids s)) (getId (credentials s))
          (map name columns) rows
          [prepareMessage
             ("Successfully executed. " +:+ pretty (List.length rows)
                +:+ " rows were affected.")]
          q None None),
     bump_ids s).
Proof.
  unfold onFulfilled, await, newId, thisId, resolve. simpl.
  now rewrite filter_join_single.
Qed.

Lemma onRejected_run (rid : option string) (query0 : string) (e : JsError)
    (s : State) :
  onRejected rid query0 e s =
    (Resolved
       (NSDatabase.mkIResult rid (generateId (ids s)) (getId (credentials s))
          [] [] [prepareMessage (replace_newlines (message e))]
          query0 (Some true) (Some e)),
     bump_ids s).
Proof.
  unfold onRejected, await, newId, thisId, resolve. simpl.
  now rewrite filter_join_single.
Qed.

Lemma loop_body_settles (db : Client) (rid : option string) (query0 q : string)
    (s : State) :
  translate q (execute db (exec_log s) q) <> Pending ->
  exists r, loop_body db rid query0 q s = (Resolved r, bump_ids (log_exec q s)).
Proof.
  intros Hp. rewrite loop_body_run.
  destruct (translate _ _) as [[[q' rows] columns]|e|]; [| |contradiction].
  - rewrite onFulfilled_run. eexists. reflexivity.
  - rewrite onRejected_run. eexists. reflexivity.
Qed.

(** The loop body never rejects: a failure is turned into a record. *)
Lemma loop_body_not_rejected (db : Client) (rid : option string)
    (query0 q : string) (s : State) (e : JsError) (s' : State) :
  loop_body db rid query0 q s <> (Rejected e, s').
Proof.
  rewrite loop_body_run.
  destruct (translate _ _) as [[[q' rows] columns]|e'|].
  - rewrite onFulfilled_run. discriminate.
  - rewrite onRejected_run. discriminate.
  - discriminate.
Qed.

Lemma for_of_not_rejected (db : Client) (rid : option string) (query0 : string) :
  forall (qs : list string) (acc : list NSDatabase.IResult) (s : State)
         (e : JsError) (s' : State),
    for_of qs (loop_body db rid query0) acc s <> (Rejected e, s').
Proof.
  induction qs as [|q rest IH]; intros acc s e s'; simpl.
  - discriminate.
  - unfold await.
    destruct (loop_body db rid query0 q s) as [[r|e'|] s1] eqn:Hb.
    + apply IH.
    + exfalso. exact (loop_body_not_rejected _ _ _ _ _ _ _ Hb).
    + discriminate.
Qed.

Lemma for_of_run (db : Client) (rid : option string) (query0 : string) :
  forall (qs : list string) (acc : list NSDatabase.IResult) (s : State),
    all_settle db s qs ->
    exists l,
      for_of qs (loop_body db rid query0) acc s =
        (Resolved (acc ++ l), state_after s qs (List.length qs)) /\
      List.length l = List.length qs /\
      forall i q,
        qs !! i = Some q ->
        exists r,
          l !! i = Some r /\
          loop_body db rid query0 q (state_after s qs i) =
            (Resolved r, state_after s qs (S i)).
Proof.
  induction qs as [|q rest IH]; intros acc s Hall.
  - exists []. simpl. rewrite app_nil_r, state_after_0.
    repeat split. intros i q Hq. destruct i; discriminate.
  - assert (H0 : translate q (execute db (exec_log s) q) <> Pending).
    { specialize (Hall 0 q eq_refl). unfold nth_outcome in Hall.
      now rewrite take_0, app_nil_r in Hall. }
    destruct (loop_body_settles db rid query0 q s H0) as [r0 Hr0].
    destruct (IH (acc ++ [r0]) (bump_ids (log_exec q s))) as (l & Hrun & Hlen & Hidx).
    { intros i q' Hq'. specialize (Hall (S i) q' Hq').
      unfold nth_outcome in *. simpl in *. now rewrite <- app_assoc. }
    exists (r0 :: l). split; [|split].
    + simpl. unfold await. rewrite Hr0, Hrun.
      now rewrite <- app_assoc, state_after_S.
    + simpl. now rewrite Hlen.
    + intros [|i] q' Hq'.
      * injection Hq' as <-. exists r0. split; [reflexivity|].
        rewrite state_after_0, Hr0, <- state_after_S, state_after_0.
        reflexivity.
      * destruct (Hidx i q' Hq') as (r & Hr & Hbody).
        exists r. split; [exact Hr|].
        now rewrite <- !state_after_S.
Qed.

(** What [query] yields when the connection opens and no statement
    hangs: one record per statement, each the result of the loop body for
    that statement in the state its predecessors left. *)
Lemma query_run (s s1 : State) (db : Client) (query0 : string)
    (opt : QueryOptions) :
  open s = (Resolved db, s1) ->
  all_settle db s1 (statements query0) ->
  exists l,
    query query0 opt s =
      (Resolved l,
       state_after s1 (statements query0) (List.length (statements query0))) /\
    List.length l = List.length (statements query0) /\
    forall i q,
      statements query0 !! i = Some q ->
      exists r,
        l !! i = Some r /\
        loop_body db (opt_requestId opt) query0 q
            (state_after s1 (statements query0) i) =
          (Resolved r, state_after s1 (statements query0) (S i)).
Proof.
  intros Hopen Hall.
  destruct (for_of_run db (opt_requestId opt) query0 (statements query0) [] s1 Hall)
    as (l & Hrun & Hlen & Hidx).
  exists l. rewrite query_unfold. unfold await at 1. rewrite Hopen.
  auto.
Qed.

(** Reading one record back from the outcome of its statement. *)
Lemma loop_body_fulfilled (db : Client) (rid : option string)
    (query0 q : string) (s s' : State) (r : NSDatabase.IResult) q' rows columns :
  translate q (execute db (exec_log s) q) = Resolved (q', rows, columns) ->
  loop_body db rid query0 q s = (Resolved r, s') ->
  r = NSDatabase.mkIResult rid (generateId (ids s)) (getId (credentials s))
        (map name columns) rows
        [prepareMessage
           ("Successfully executed. " +:+ pretty (List.length rows)
              +:+ " rows were affected.")]
        q None None.
Proof.
  intros Ht. rewrite loop_body_run, Ht, onFulfilled_run.
  apply translate_query in Ht. subst q'. now intros [= <- _].
Qed.

Lemma loop_body_rejected (db : Client) (rid : option string)
    (query0 q : string) (s s' : State) (r : NSDatabase.IResult) (e : JsError) :
  translate q (execute db (exec_log s) q) = Rejected e ->
  loop_body db rid query0 q s = (Resolved r, s') ->
  r = NSDatabase.mkIResult rid (generateId (ids s)) (getId (credentials s))
        [] [] [prepareMessage (replace_newlines (message e))]
        query0 (Some true) (Some e).
Proof.
  intros Ht. rewrite loop_body_run, Ht, onRejected_run. now intros [= <- _].
Qed.

Lemma nth_record_fulfilled (db : Client) (rid : option string)
    (query0 : string) (s s' : State) (qs : list string) (i : nat) (q : string)
    (r : NSDatabase.IResult) q' rows columns :
  nth_outcome db s qs i q = Resolved (q', rows, columns) ->
  loop_body db rid query0 q (state_after s qs i) = (Resolved r, s') ->
  r = NSDatabase.mkIResult rid (generateId (ids s + i)) (getId (credentials s))
        (map name columns) rows
        [prepareMessage
           ("Successfully executed. " +:+ pretty (List.length rows)
              +:+ " rows were affected.")]
        q None None.
Proof.
  intros Ht Hb.
  exact (loop_body_fulfilled db rid query0 q (state_after s qs i) s' r
           q' rows columns Ht Hb).
Qed.

Lemma nth_record_rejected (db : Client) (rid : option string)
    (query0 : string) (s s' : State) (qs : list string) (i : nat) (q : string)
    (r : NSDatabase.IResult) (e : JsError) :
  nth_outcome db s qs i q = Rejected e ->
  loop_body db rid query0 q (state_after s qs i) = (Resolved r, s') ->
  r = NSDatabase.mkIResult rid (generateId (ids s + i)) (getId (credentials s))
        [] [] [prepareMessage (replace_newlines (message e))]
        query0 (Some true) (Some e).
Proof.
  intros Ht Hb.
  exact (loop_body_rejected db rid query0 q (state_after s qs i) s' r e Ht Hb).
Qed.

Lemma loop_body_state (db : Client) (rid : option string) (query0 q : string)
    (s s' : State) (r : NSDatabase.IResult) :
  loop_body db rid query0 q s = (Resolved r, s') ->
  s' = bump_ids (log_exec q s).
Proof.
  rewrite loop_body_run.
  destruct (translate _ _) as [[[q' rows] columns]|e|].
  - rewrite onFulfilled_run. now intros [= _ <-].
  - rewrite onRejected_run. now intros [= _ <-].
  - discriminate.
Qed.

(** A loop that returns has seen every statement settle. *)
Lemma for_of_resolved_settles (db : Client) (rid : option string)
    (query0 : string) :
  forall (qs : list string) (acc l : list NSDatabase.IResult) (s s' : State),
    for_of qs (loop_body db rid query0) acc s = (Resolved l, s') ->
    all_settle db s qs.
Proof.
  induction qs as [|q0 rest IH]; intros acc l s s' Hrun j qj Hj Hp.
  - destruct j; discriminate.
  - simpl in Hrun. unfold await in Hrun. unfold nth_outcome in Hp.
    destruct j as [|j].
    + injection Hj as ->. rewrite take_0, app_nil_r in Hp.
      rewrite loop_body_run, Hp in Hrun. discriminate.
    + destruct (loop_body db rid query0 q0 s) as [[r|e'|] s1] eqn:Hb;
        try discriminate.
      apply loop_body_state in Hb. subst s1.
      apply (IH _ _ _ _ Hrun j qj Hj). unfold nth_outcome. simpl.
      rewrite <- app_assoc. exact Hp.
Qed.

Lemma query_resolved_settles (s s1 s2 : State) (db : Client) (query0 : string)
    (opt : QueryOptions) (l : list NSDatabase.IResult) :
  open s = (Resolved db, s1) ->
  query query0 opt s = (Resolved l, s2) ->
  all_settle db s1 (statements query0).
Proof.
  intros Hopen. rewrite query_unfold. unfold await at 1. rewrite Hopen.
  apply for_of_resolved_settles.
Qed.

(** Rejections of [query] are rejections of [open]. *)
Lemma query_rejected_open (s s2 : State) (query0 : string) (opt : QueryOptions)
    (e : JsError) :
  query query0 opt s = (Rejected e, s2) -> open s = (Rejected e, s2).
Proof.
  rewrite query_unfold. unfold await at 1.
  destruct (open s) as [[db|e'|] s1]; intros Hrun.
  - exfalso. exact (for_of_not_rejected _ _ _ _ _ _ _ _ Hrun).
  - now injection Hrun as <- <-.
  - discriminate.
Qed.

End QueryFacts.

Section QueryClaims.

Context `{Collaborators}.

(** C1: when the connection opens and every statement settles, [query]
    returns exactly one record per statement produced by the parser, the
    statements having been handed to the engine in parse order and the
    i-th record being the one built from the i-th statement. *)
Theorem query_one_record_per_statement (s s1 : State) (db : Client)
    (query0 : string) (opt : QueryOptions) :
  open s = (Resolved db, s1) ->
  all_settle db s1 (statements query0) ->
  exists l s2,
    query query0 opt s = (Resolved l, s2) /\
    List.length l = List.length (statements query0) /\
    exec_log s2 = exec_log s1 ++ statements query0 /\
    forall i q,
      statements query0 !! i = Some q ->
      exists r,
        l !! i = Some r /\
        NSDatabase.resultId r = generateId (ids s1 + i) /\
        NSDatabase.requestId r = opt_requestId opt /\
        (forall q' rows columns,
           nth_outcome db s1 (statements query0) i q = Resolved (q', rows, columns) ->
           NSDatabase.query r = q /\
           NSDatabase.results r = rows /\
           NSDatabase.cols r = map name columns) /\
        (forall e,
           nth_outcome db s1 (statements query0) i q = Rejected e ->
           NSDatabase.rawError r = Some e).
Proof.
  intros Hopen Hall.
  destruct (query_run s s1 db query0 opt Hopen Hall) as (l & Hq & Hlen & Hidx).
  exists l. eexists. split; [exact Hq|]. split; [exact Hlen|]. split.
  { simpl. now rewrite firstn_all. }
  intros i q Hi. destruct (Hidx i q Hi) as (r & Hr & Hbody).
  exists r. split; [exact Hr|].
  pose proof (Hall i q Hi) as Hset.
  destruct (nth_outcome db s1 (statements query0) i q)
    as [[[q' rows] columns]|e|] eqn:Ht; [| |contradiction].
  - rewrite (nth_record_fulfilled _ _ _ _ _ _ _ _ _ _ _ _ Ht Hbody). simpl.
    split; [reflexivity|]. split; [reflexivity|]. split.
    + intros q2 rows2 columns2 Heq. injection Heq as _ <- <-. auto.
    + intros e Heq. discriminate.
  - rewrite (nth_record_rejected _ _ _ _ _ _ _ _ _ _ Ht Hbody). simpl.
    split; [reflexivity|]. split; [reflexivity|]. split.
    + intros q2 rows2 columns2 Heq. discriminate.
    + intros e2 Heq. now injection Heq as <-.
Qed.

(** C3: the record of a statement whose execution is rejected with an
    error has [error = true], no rows, no column names, the error object
    itself as [rawError], and as its only message the text built from the
    error's [message] with every newline replaced by a space (a text that
    contains no newline). *)
Theorem failed_statement_record (s s1 s2 : State) (db : Client)
    (query0 : string) (opt : QueryOptions) (l : list NSDatabase.IResult)
    (i : nat) (q : string) (e : JsError) :
  open s = (Resolved db, s1) ->
  query query0 opt s = (Resolved l, s2) ->
  statements query0 !! i = Some q ->
  nth_outcome db s1 (statements query0) i q = Rejected e ->
  exists r,
    l !! i = Some r /\
    NSDatabase.error r = Some true /\
    NSDatabase.results r = [] /\
    NSDatabase.cols r = [] /\
    NSDatabase.rawError r = Some e /\
    NSDatabase.messages r = [prepareMessage (replace_newlines (message e))] /\
    String.length (replace_newlines (message e)) = String.length (message e) /\
    forall k,
      String.get k (replace_newlines (message e)) =
        match String.get k (message e) with
        | Some c => Some (if Ascii.eqb c "010"%char then " "%char else c)
        | None => None
        end /\
      String.get k (replace_newlines (message e)) <> Some "010"%char.
Proof.
  intros Hopen Hq Hi Hout.
  pose proof (query_resolved_settles _ _ _ _ _ _ _ Hopen Hq) as Hall.
  destruct (query_run s s1 db query0 opt Hopen Hall) as (l' & Hq' & _ & Hidx).
  rewrite Hq in Hq'. injection Hq' as -> _.
  destruct (Hidx i q Hi) as (r & Hr & Hbody).
  exists r. split; [exact Hr|].
  rewrite (nth_record_rejected _ _ _ _ _ _ _ _ _ _ Hout Hbody). simpl.
  repeat split.
  - apply replace_newlines_length.
  - apply replace_newlines_get.
  - apply replace_newlines_flat.
Qed.

(** C4: [query] is rejected only when [open] is; a statement that fails
    never rejects it.  When the connection opens and no statement hangs,
    every parsed statement is handed to the engine, in order and whatever
    the outcome of the others, and each failed statement yields its own
    error-flagged record. *)
Theorem query_contains_statement_failures (s : State) (query0 : string)
    (opt : QueryOptions) :
  (forall e s2,
     query query0 opt s = (Rejected e, s2) -> open s = (Rejected e, s2)) /\
  (forall db s1,
     open s = (Resolved db, s1) ->
     all_settle db s1 (statements query0) ->
     exists l s2,
       query query0 opt s = (Resolved l, s2) /\
       exec_log s2 = exec_log s1 ++ statements query0 /\
       List.length l = List.length (statements query0) /\
       forall i q,
         statements query0 !! i = Some q ->
         exists r,
           l !! i = Some r /\
           (forall e,
              nth_outcome db s1 (statements query0) i q = Rejected e ->
              NSDatabase.error r = Some true /\ NSDatabase.rawError r = Some e) /\
           (forall res,
              nth_outcome db s1 (statements query0) i q = Resolved res ->
              NSDatabase.error r = None /\ NSDatabase.rawError r = None)).
Proof.
  split.
  - intros e s2. apply query_rejected_open.
  - intros db s1 Hopen Hall.
    destruct (query_run s s1 db query0 opt Hopen Hall) as (l & Hq & Hlen & Hidx).
    exists l. eexists. split; [exact Hq|]. split.
    { simpl. now rewrite firstn_all. }
    split; [exact Hlen|].
    intros i q Hi. destruct (Hidx i q Hi) as (r & Hr & Hbody).
    exists r. split; [exact Hr|].
    destruct (nth_outcome db s1 (statements query0) i q)
      as [[[q' rows] columns]|e|] eqn:Ht.
    + rewrite (nth_record_fulfilled _ _ _ _ _ _ _ _ _ _ _ _ Ht Hbody). simpl.
      split; [intros e Heq; discriminate | auto].
    + rewrite (nth_record_rejected _ _ _ _ _ _ _ _ _ _ Ht Hbody). simpl.
      split; [intros e2 Heq; now injection Heq as <- | intros res Heq; discriminate].
    + exfalso. exact (Hall i q Hi Ht).
Qed.

(** C10: in the list [query] returns, the record of a failed statement
    carries in [query] the whole text submitted to [query], and the
    record of a successful statement carries the parsed statement that
    was executed. *)
Theorem result_query_field (s s1 s2 : State) (db : Client)
    (query0 : string) (opt : QueryOptions) (l : list NSDatabase.IResult)
    (i : nat) (q : string) :
  open s = (Resolved db, s1) ->
  query query0 opt s = (Resolved l, s2) ->
  statements query0 !! i = Some q ->
  exists r,
    l !! i = Some r /\
    (forall e,
       nth_outcome db s1 (statements query0) i q = Rejected e ->
       NSDatabase.error r = Some true /\ NSDatabase.query r = query0) /\
    (forall res,
       nth_outcome db s1 (statements query0) i q = Resolved res ->
       NSDatabase.error r = None /\ NSDatabase.query r = q).
Proof.
  intros Hopen Hq Hi.
  pose proof (query_resolved_settles _ _ _ _ _ _ _ Hopen Hq) as Hall.
  destruct (query_run s s1 db query0 opt Hopen Hall) as (l' & Hq' & _ & Hidx).
  rewrite Hq in Hq'. injection Hq' as -> _.
  destruct (Hidx i q Hi) as (r & Hr & Hbody).
  exists r. split; [exact Hr|].
  destruct (nth_outcome db s1 (statements query0) i q)
    as [[[q' rows] columns]|e|] eqn:Ht.
  - rewrite (nth_record_fulfilled _ _ _ _ _ _ _ _ _ _ _ _ Ht Hbody). simpl.
    split; [intros e Heq; discriminate | auto].
  - rewrite (nth_record_rejected _ _ _ _ _ _ _ _ _ _ Ht Hbody). simpl.
    split; [auto | intros res Heq; discriminate].
  - exfalso. exact (Hall i q Hi Ht).
Qed.

(** C2 (amended): when every [data] call carries the same column list,
    every row has one value per column and no column is named
    [__proto__], every row mapping of the tuple [executeQuery] resolves
    with has as its key set the set of names of the tuple's column
    descriptors. *)
Theorem executeQuery_rows_keyed_by_columns (db : Client) (s s' : State)
    (query0 : string) (columns : list Column) q rows cs :
  Forall (batch_matches columns) (batches (execute db (exec_log s) query0)) ->
  "__proto__" ∉ map name columns ->
  executeQuery db query0 s = (Resolved (q, rows, cs), s') ->
  Forall (fun data : RowRecord => dom data = column_names cs) rows.
Proof.
  intros Hb Hproto Hrun. unfold executeQuery, promise in Hrun.
  injection Hrun as Ht _.
  exact (translate_keyed_by query0 columns _ Hproto Hb q rows cs Ht).
Qed.

End QueryClaims.

(** ** Statement parser *)

Module QueryParserFacts.

Import QueryParser.

Lemma is_semicolon_eq (c : ascii) : is_semicolon c = true -> c = ";"%char.
Proof. unfold is_semicolon. apply Ascii.eqb_eq. Qed.

Lemma step_semicolon (m : Mode) : top_level m = true -> step m ";"%char = Code.
Proof. destruct m; simpl; intros Ht; try discriminate; reflexivity. Qed.

Lemma pieces_cons (m : Mode) (s : list ascii) :
  exists p ps, pieces m s = p :: ps.
Proof.
  destruct s as [|c rest]; simpl; [eauto|].
  destruct (top_level m && is_semicolon c); [eauto|].
  destruct (pieces (step m c) rest); eauto.
Qed.

(** A semicolon met at top level cuts the input there. *)
Lemma pieces_app_top (a b : list ascii) :
  forall m : Mode,
    top_level (run m a) = true ->
    pieces m (a ++ ";"%char :: b) = pieces m a ++ pieces Code b.
Proof.
  induction a as [|c a IH]; intros m Ht; simpl in *.
  - now rewrite Ht.
  - destruct (top_level m && is_semicolon c) eqn:Hc.
    + apply andb_prop in Hc as [Hm Hs]. apply is_semicolon_eq in Hs. subst c.
      rewrite (step_semicolon m Hm) in Ht. now rewrite (IH Code Ht).
    + rewrite (IH (step m c) Ht).
      destruct (pieces_cons (step m c) a) as (p & ps & ->). reflexivity.
Qed.

(** Nothing else cuts it. *)
Lemma pieces_no_top (s : list ascii) :
  forall m : Mode,
    (forall a b, s = a ++ ";"%char :: b -> top_level (run m a) = false) ->
    pieces m s = [s].
Proof.
  induction s as [|c rest IH]; intros m Hno; simpl; [reflexivity|].
  destruct (top_level m && is_semicolon c) eqn:Hc.
  - apply andb_prop in Hc as [Hm Hs]. apply is_semicolon_eq in Hs. subst c.
    specialize (Hno [] rest eq_refl). simpl in Hno. congruence.
  - rewrite (IH (step m c)); [reflexivity|].
    intros a b ->. exact (Hno (c :: a) b eq_refl).
Qed.

Lemma trim_start_head (s : list ascii) :
  trim_start s = [] \/
  exists c t, trim_start s = c :: t /\ is_space c = false.
Proof.
  induction s as [|c rest IH]; simpl; [now left|].
  destruct (is_space c) eqn:Hc; [exact IH|]. right. eauto.
Qed.

Lemma trim_end_head (c : ascii) (rest : list ascii) :
  is_space c = false -> exists t, trim_end (c :: rest) = c :: t.
Proof.
  intros Hc. simpl. destruct (trim_end rest); [rewrite Hc|]; eauto.
Qed.

Lemma trim_end_idempotent (s : list ascii) : trim_end (trim_end s) = trim_end s.
Proof.
  induction s as [|c rest IH]; simpl; [reflexivity|].
  destruct (trim_end rest) as [|d t] eqn:Hr.
  - destruct (is_space c) eqn:Hc; simpl; [reflexivity | now rewrite Hc].
  - change (trim_end (c :: d :: t)) with
      (match trim_end (d :: t) with
       | [] => if is_space c then [] else [c]
       | u => c :: u
       end).
    now rewrite IH.
Qed.

Lemma trim_idempotent (s : list ascii) : trim (trim s) = trim s.
Proof.
  unfold trim. destruct (trim_start_head s) as [-> | (c & t & -> & Hc)];
    [reflexivity|].
  destruct (trim_end_head c t Hc) as [t' Ht']. rewrite Ht'.
  simpl trim_start. rewrite Hc, <- Ht'. apply trim_end_idempotent.
Qed.

Lemma trim_start_spaces (s : list ascii) :
  Forall (fun c => is_space c = true) s -> trim_start s = [].
Proof. induction 1 as [|c rest Hc _ IH]; simpl; [reflexivity | now rewrite Hc]. Qed.

Lemma pieces_spaces (s : list ascii) :
  Forall (fun c => is_space c = true) s -> forall m, pieces m s = [s].
Proof.
  induction 1 as [|c rest Hc _ IH]; intros m; simpl; [reflexivity|].
  assert (Hs : is_semicolon c = false).
  { destruct (is_semicolon c) eqn:Hs; [|reflexivity].
    apply is_semicolon_eq in Hs. subst c. discriminate. }
  now rewrite Hs, andb_false_r, IH.
Qed.

Lemma split_trimmed (s : list ascii) :
  Forall (fun p => p <> [] /\ trim p = p) (split s).
Proof.
  unfold split. apply List.Forall_forall. intros p Hp.
  apply List.filter_In in Hp as [Hin Hne].
  apply List.in_map_iff in Hin as (p0 & <- & _). split.
  - intros Heq. rewrite Heq in Hne. discriminate.
  - apply trim_idempotent.
Qed.

Lemma split_app_top (a b : list ascii) :
  top_level (run Code a) = true ->
  split (a ++ ";"%char :: b) = split a ++ split b.
Proof.
  intros Ht. unfold split.
  now rewrite (pieces_app_top a b Code Ht), map_app, List.filter_app.
Qed.

Lemma split_no_top (s : list ascii) :
  (forall a b, s = a ++ ";"%char :: b -> top_level (run Code a) = false) ->
  split s = if non_empty (trim s) then [trim s] else [].
Proof.
  intros Hno. unfold split. rewrite (pieces_no_top s Code Hno). reflexivity.
Qed.

Lemma chars_app (a b : string) :
  list_ascii_of_string (a +:+ b) =
    list_ascii_of_string a ++ list_ascii_of_string b.
Proof. induction a as [|c a IH]; simpl; [reflexivity | now rewrite IH]. Qed.

Lemma string_of_chars_nil (p : list ascii) :
  string_of_list_ascii p = EmptyString -> p = [].
Proof. destruct p; [reflexivity | discriminate]. Qed.

Lemma string_of_chars_app (a b : list ascii) :
  string_of_list_ascii (a ++ b) =
    string_of_list_ascii a +:+ string_of_list_ascii b.
Proof. induction a as [|c a IH]; simpl; [reflexivity | now rewrite IH]. Qed.

End QueryParserFacts.

(** C5: every statement the parser yields is non-empty and trimmed; a
    semicolon met outside quoted literals and comments separates the
    statements before it from those after it, and an input without such a
    semicolon is at most one statement, whatever semicolons its literals
    and comments hold.  A semicolon in a quoted literal or in a comment
    does not split, a trailing semicolon adds no statement, and empty or
    whitespace-only input has no statement. *)
Theorem statements_split_at_top_level_semicolons :
  (forall query : string,
     Forall (fun st => st <> EmptyString /\ QueryParser.trim_string st = st)
            (QueryParser.statements query)) /\
  (forall a b : string,
     QueryParser.top_level (QueryParser.mode_after a) = true ->
     QueryParser.statements (a +:+ ";" +:+ b) =
       QueryParser.statements a ++ QueryParser.statements b) /\
  (forall query : string,
     (forall a b : string,
        query = a +:+ ";" +:+ b ->
        QueryParser.top_level (QueryParser.mode_after a) = false) ->
     QueryParser.statements query =
       if String.eqb (QueryParser.trim_string query) EmptyString then []
       else [QueryParser.trim_string query]) /\
  (forall query : string,
     Forall (fun c => QueryParser.is_space c = true) (list_ascii_of_string query) ->
     QueryParser.statements query = []) /\
  QueryParser.statements EmptyString = [] /\
  QueryParser.statements "SELECT 1;" = ["SELECT 1"] /\
  QueryParser.statements "SELECT ';' AS x" = ["SELECT ';' AS x"] /\
  QueryParser.statements "SELECT 1 /* a;b */ ; SELECT 2" =
    ["SELECT 1 /* a;b */"; "SELECT 2"].
Proof.
  split; [|split; [|split; [|split]]].
  - intros query. unfold QueryParser.statements. apply Forall_fmap.
    eapply Forall_impl; [apply QueryParserFacts.split_trimmed|].
    intros p [Hne Htrim]. simpl. split.
    + intros Heq. apply Hne. now apply QueryParserFacts.string_of_chars_nil.
    + unfold QueryParser.trim_string.
      now rewrite list_ascii_of_string_of_list_ascii, Htrim.
  - intros a b Ht. unfold QueryParser.statements, QueryParser.mode_after in *.
    rewrite !QueryParserFacts.chars_app. simpl.
    now rewrite (QueryParserFacts.split_app_top _ _ Ht), map_app.
  - intros query Hno. unfold QueryParser.statements, QueryParser.trim_string.
    rewrite QueryParserFacts.split_no_top.
    + destruct (QueryParser.trim (list_ascii_of_string query)); reflexivity.
    + intros a b Heq. specialize (Hno (string_of_list_ascii a) (string_of_list_ascii b)).
      unfold QueryParser.mode_after in Hno.
      rewrite list_ascii_of_string_of_list_ascii in Hno. apply Hno.
      rewrite <- (string_of_list_ascii_of_string query), Heq.
      rewrite QueryParserFacts.string_of_chars_app. reflexivity.
  - intros query Hsp. unfold QueryParser.statements, QueryParser.split.
    rewrite (QueryParserFacts.pieces_spaces _ Hsp). simpl.
    unfold QueryParser.trim. now rewrite (QueryParserFacts.trim_start_spaces _ Hsp).
  - repeat split; reflexivity.
Qed.

(** * The properties on the sample environment *)

Module SampleFacts.

Import Sample.

Definition three : string := "SELECT 1; SELECT x; SELECT 2".

Lemma sample_open : open (fresh "localhost") = (Resolved client, opened).
Proof. reflexivity. Qed.

Lemma three_statements : statements three = ["SELECT 1"; "SELECT x"; "SELECT 2"].
Proof. vm_compute. reflexivity. Qed.

Lemma three_settle : all_settle client opened (statements three).
Proof.
  intros i q Hi. rewrite three_statements in *.
  destruct i as [|[|[|i]]]; simpl in Hi; try discriminate;
    injection Hi as <-; vm_compute; discriminate.
Qed.

Lemma three_run :
  exists l s2, query three no_options (fresh "localhost") = (Resolved l, s2).
Proof.
  destruct (query_run _ _ _ three no_options sample_open three_settle)
    as (l & Hq & _).
  eauto.
Qed.

Lemma open_returns_memoized_handle_witness :
  open opened = (Resolved client, opened) /\
  ctor_log (snd (open opened)) = ctor_log opened.
Proof.
  destruct (open_returns_memoized_handle (fresh "localhost") opened
              (Resolved client) sample_open) as [_ Hsecond].
  exact (Hsecond client eq_refl).
Defined.

Lemma open_rejects_when_constructor_throws_witness :
  exists s1,
    open (fresh "flaky") = (Rejected refused, s1) /\
    connection s1 = None /\
    ctor_log s1 = ctor_log (fresh "flaky") ++ [connOptions (credentials (fresh "flaky"))] /\
    ctor_log (snd (open s1)) = ctor_log s1 ++ [connOptions (credentials s1)].
Proof.
  apply (open_rejects_when_constructor_throws (fresh "flaky") refused);
    reflexivity.
Defined.

Lemma close_releases_handle_witness :
  close (fresh "localhost") = (Resolved tt, fresh "localhost") /\
  close opened = (Resolved tt, set_connection None opened) /\
  connection (snd (close opened)) = None.
Proof.
  split.
  - apply (proj1 (close_releases_handle (fresh "localhost"))). reflexivity.
  - destruct (proj2 (close_releases_handle opened) (fresh "localhost") client
                sample_open) as (Hclose & Hnone & _).
    split; assumption.
Defined.

Lemma getChildrenForItem_static_witness :
  getChildrenForItem (credentials_for "localhost")
      (mkItem "default" SCHEMA None) (mkItem "hive" CONNECTED_CONNECTION None) =
    items [ mkChildItem "Tables" RESOURCE_GROUP "folder" TABLE;
            mkChildItem "Views" RESOURCE_GROUP "folder" VIEW ] /\
  getChildrenForItem (credentials_for "localhost")
      (mkItem "id" COLUMN None) (mkItem "orders" TABLE None) = items [].
Proof.
  split.
  - apply (proj1 (getChildrenForItem_static (credentials_for "localhost")
                    (mkItem "default" SCHEMA None)
                    (mkItem "hive" CONNECTED_CONNECTION None))).
    reflexivity.
  - apply (proj2 (getChildrenForItem_static (credentials_for "localhost")
                    (mkItem "id" COLUMN None) (mkItem "orders" TABLE None)));
      discriminate.
Defined.

Lemma query_one_record_per_statement_witness :
  exists l s2,
    query three no_options (fresh "localhost") = (Resolved l, s2) /\
    List.length l = List.length (statements three) /\
    exec_log s2 = exec_log opened ++ statements three.
Proof.
  destruct (query_one_record_per_statement (fresh "localhost") opened client
              three no_options sample_open three_settle)
    as (l & s2 & Hq & Hlen & Hlog & _).
  exists l, s2. auto.
Defined.

Lemma failed_statement_record_witness :
  exists l s2 r,
    query three no_options (fresh "localhost") = (Resolved l, s2) /\
    l !! 1 = Some r /\
    NSDatabase.error r = Some true /\
    NSDatabase.results r = [] /\
    NSDatabase.cols r = [] /\
    NSDatabase.rawError r = Some unresolved_column /\
    NSDatabase.messages r =
      [prepareMessage "line 1:8: Column 'x' cannot be resolved"].
Proof.
  destruct three_run as (l & s2 & Hq).
  destruct (failed_statement_record (fresh "localhost") opened s2 client three
              no_options l 1 "SELECT x" unresolved_column sample_open Hq)
    as (r & Hr & Herr & Hrows & Hcols & Hraw & Hmsg & _).
  - rewrite three_statements. reflexivity.
  - vm_compute. reflexivity.
  - exists l, s2, r. auto 10.
Defined.

Lemma query_contains_statement_failures_witness :
  exists l s2 r1 r2,
    query three no_options (fresh "localhost") = (Resolved l, s2) /\
    exec_log s2 = exec_log opened ++ statements three /\
    l !! 1 = Some r1 /\ NSDatabase.error r1 = Some true /\
    l !! 2 = Some r2 /\ NSDatabase.error r2 = None.
Proof.
  destruct (proj2 (query_contains_statement_failures (fresh "localhost") three
                     no_options) client opened sample_open three_settle)
    as (l & s2 & Hq & Hlog & _ & Hidx).
  destruct (Hidx 1 "SELECT x") as (r1 & Hr1 & Hfail & _).
  { rewrite three_statements. reflexivity. }
  destruct (Hidx 2 "SELECT 2") as (r2 & Hr2 & _ & Hok).
  { rewrite three_statements. reflexivity. }
  destruct (Hfail unresolved_column) as [Herr _].
  { vm_compute. reflexivity. }
  destruct (Hok ("SELECT 2", [ {[ "_col0" := VNum 2 ]} ], [mkColumn "_col0" "integer"]))
    as [Hnone _].
  { vm_compute. reflexivity. }
  exists l, s2, r1, r2. auto 10.
Defined.

Lemma result_query_field_witness :
  exists l s2 r,
    query three no_options (fresh "localhost") = (Resolved l, s2) /\
    l !! 1 = Some r /\
    NSDatabase.error r = Some true /\
    NSDatabase.query r = three.
Proof.
  destruct three_run as (l & s2 & Hq).
  destruct (result_query_field (fresh "localhost") opened s2 client three
              no_options l 1 "SELECT x" sample_open Hq)
    as (r & Hr & Hfail & _).
  { rewrite three_statements. reflexivity. }
  destruct (Hfail unresolved_column) as [Herr Hquery].
  { vm_compute. reflexivity. }
  exists l, s2, r. auto.
Defined.

Lemma executeQuery_rows_keyed_by_columns_witness :
  Forall (fun data : RowRecord => dom data = column_names [mkColumn "_col0" "integer"])
         [ ({[ "_col0" := VNum 1 ]} : RowRecord) ].
Proof.
  apply (executeQuery_rows_keyed_by_columns client opened
           (log_exec "SELECT 1" opened) "SELECT 1"
           [mkColumn "_col0" "integer"] "SELECT 1").
  - repeat constructor.
  - intros Hin. apply list_elem_of_In in Hin. simpl in Hin.
    destruct Hin as [Heq|[]]. discriminate.
  - vm_compute. reflexivity.
Defined.

(** C2 as the specification words it, without any assumption on the
    engine, fails: on a row shorter than its column list, on a column list
    that changes between two [data] calls, and on a column named
    [__proto__]. *)
Lemma executeQuery_rows_not_keyed_by_columns :
  (executeQuery client "SELECT a, b FROM short" opened =
     (Resolved ("SELECT a, b FROM short",
                [ {[ "a" := VNum 1 ]} ],
                [mkColumn "a" "integer"; mkColumn "b" "integer"]),
      log_exec "SELECT a, b FROM short" opened) /\
   ~ Forall (fun data : RowRecord =>
               dom data = column_names [mkColumn "a" "integer"; mkColumn "b" "integer"])
            [ ({[ "a" := VNum 1 ]} : RowRecord) ]) /\
  (executeQuery client "SELECT a FROM drifting" opened =
     (Resolved ("SELECT a FROM drifting",
                [ {[ "a" := VNum 1 ]}; {[ "b" := VNum 2 ]} ],
                [mkColumn "b" "integer"]),
      log_exec "SELECT a FROM drifting" opened) /\
   ~ Forall (fun data : RowRecord => dom data = column_names [mkColumn "b" "integer"])
            [ ({[ "a" := VNum 1 ]} : RowRecord); {[ "b" := VNum 2 ]} ]) /\
  (executeQuery client "SELECT 1 AS __proto__" opened =
     (Resolved ("SELECT 1 AS __proto__", [ ∅ ], [mkColumn "__proto__" "integer"]),
      log_exec "SELECT 1 AS __proto__" opened) /\
   ~ Forall (fun data : RowRecord =>
               dom data = column_names [mkColumn "__proto__" "integer"])
            [ (∅ : RowRecord) ]).
Proof.
  split; [|split]; (split; [vm_compute; reflexivity|]); intros Hall;
    inversion Hall as [|? ? Heq _]; subst.
  - apply (f_equal (fun X : gset string => bool_decide ("b" ∈ X))) in Heq.
    vm_compute in Heq. discriminate.
  - apply (f_equal (fun X : gset string => bool_decide ("b" ∈ X))) in Heq.
    vm_compute in Heq. discriminate.
  - apply (f_equal (fun X : gset string => bool_decide ("__proto__" ∈ X))) in Heq.
    vm_compute in Heq. discriminate.
Qed.

Lemma statements_split_at_top_level_semicolons_witness :
  QueryParser.statements ("SELECT 'a;b'" +:+ ";" +:+ " SELECT 2") =
    QueryParser.statements "SELECT 'a;b'" ++ QueryParser.statements " SELECT 2".
Proof.
  apply (proj1 (proj2 statements_split_at_top_level_semicolons)).
  reflexivity.
Defined.

End SampleFacts.

(** * Further properties of the driver *)

(** ** Rows and batches *)

Section BatchFacts.

Lemma row_forEach_fits (columns : list Column) :
  forall (row : list JsValue) (idx : nat) (data : RowRecord),
    idx + List.length row <= List.length columns ->
    is_Some (row_forEach columns idx row data).
Proof.
  induction row as [|value rest IH]; intros idx data Hlen; simpl in *.
  - eauto.
  - destruct (columns !! idx) as [col|] eqn:Hcol.
    + apply IH. lia.
    + apply lookup_ge_None in Hcol. lia.
Qed.


Lemma rows_forEach_fits (columns : list Column) :
  forall (rows : list (list JsValue)) (acc : list RowRecord),
    Forall (fun row => List.length row <= List.length columns) rows ->
    rows_forEach columns rows acc = (acc ++ map (row_record columns) rows, false).
Proof.
  induction rows as [|row rest IH]; intros acc Hfit; simpl.
  - now rewrite app_nil_r.
  - inversion Hfit as [|? ? Hrow Hrest]; subst.
    unfold row_record at 1.
    destruct (row_forEach_fits columns row 0 ∅ Hrow) as [data Hdata].
    rewrite Hdata. simpl. rewrite (IH _ Hrest). now rewrite <- app_assoc.
Qed.


Lemma default_last_cons {A} (d x : A) (l : list A) :
  default d (last (x :: l)) = default x (last l).
Proof. rewrite last_cons. destruct (last l); reflexivity. Qed.

(** Error-free calls whose rows fit only append rows and replace [cols]. *)
Lemma deliver_batches (query : string) (tail : list Event) :
  forall (bs : list DataCall) (st : Executor),
    Forall error_free bs ->
    Forall fits bs ->
    deliver query (map OnData bs ++ tail) st =
      deliver query tail
        (mkExecutor (results st ++ List.concat (map batch_records bs))
                    (default (cols st) (last (map d_columns bs)))
                    (settled st)).
Proof.
  induction bs as [|d rest IH]; intros st Herr Hfit; simpl.
  - rewrite app_nil_r. now destruct st.
  - inversion Herr as [|? ? Hd Hrest]; inversion Hfit as [|? ? Hf Hfrest]; subst.
    unfold onData. rewrite Hd. rewrite (rows_forEach_fits _ _ _ Hf).
    rewrite (IH _ Hrest Hfrest). simpl.
    rewrite default_last_cons. unfold batch_records at 2.
    now rewrite <- app_assoc.
Qed.

Lemma deliver_settled (query : string) (evs : list Event) :
  forall (st : Executor),
    settled st <> Pending -> settled (deliver query evs st) = settled st.
Proof.
  induction evs as [|ev rest IH]; intros st Hst; [reflexivity|].
  destruct ev as [d|error]; simpl.
  - unfold onData. destruct (d_error d) as [e|].
    + rewrite IH; simpl; destruct (settled st); simpl; congruence.
    + destruct (rows_forEach _ _ _) as [acc threw].
      destruct threw; [reflexivity | now rewrite IH].
  - rewrite IH; unfold callback; destruct error; simpl;
      destruct (settled st); simpl; congruence.
Qed.

End BatchFacts.

Section RowFacts.








End RowFacts.

(** ** The promise of [executeQuery] *)

Definition completion_events (c : option (option JsError)) : list Event :=
  match c with
  | Some error => [Callback error]
  | None => []
  end.

Lemma events_unfold (r : Response) :
  events r = map OnData (batches r) ++ completion_events (completion r).
Proof. reflexivity. Qed.




Lemma translate_error_in_data (query : string) (r : Response)
    (pre post : list DataCall) (d : DataCall) (e : JsError) :
  batches r = pre ++ d :: post ->
  Forall error_free pre ->
  Forall fits pre ->
  d_error d = Some e ->
  translate query r = Rejected e.
Proof.
  intros Hb Herr Hfit Hd. unfold translate. rewrite events_unfold, Hb.
  rewrite map_app, <- app_assoc. rewrite (deliver_batches _ _ _ _ Herr Hfit).
  simpl. unfold onData. rewrite Hd. now rewrite deliver_settled.
Qed.

Lemma translate_error_in_completion (query : string) (r : Response) (e : JsError) :
  Forall error_free (batches r) ->
  Forall fits (batches r) ->
  completion r = Some (Some e) ->
  translate query r = Rejected e.
Proof.
  intros Herr Hfit Hc. unfold translate. rewrite events_unfold.
  rewrite (deliver_batches _ _ _ _ Herr Hfit), Hc. reflexivity.
Qed.

Lemma deliver_pending (query : string) :
  forall (bs : list DataCall) (st : Executor),
    settled st = Pending ->
    Forall error_free bs ->
    settled (deliver query (map OnData bs ++ []) st) = Pending.
Proof.
  induction bs as [|d rest IH]; intros st Hst Herr; simpl; [exact Hst|].
  inversion Herr as [|? ? Hd Hrest]; subst. unfold onData. rewrite Hd.
  destruct (rows_forEach _ _ _) as [acc threw].
  destruct threw; [exact Hst | now apply IH].
Qed.

Lemma translate_pending (query : string) (r : Response) :
  Forall error_free (batches r) ->
  completion r = None ->
  translate query r = Pending.
Proof.
  intros Herr Hc. unfold translate. rewrite events_unfold, Hc.
  now apply deliver_pending.
Qed.

Section FrameFacts.

Context `{Collaborators}.

Lemma open_frame (s : State) :
  credentials (snd (open s)) = credentials s /\
  exec_log (snd (open s)) = exec_log s /\
  ids (snd (open s)) = ids s.
Proof.
  unfold open. destruct (connection s); [auto|].
  destruct (construct _ _); auto.
Qed.

Lemma loop_body_frame (db : Client) (rid : option string) (query0 q : string)
    (s : State) :
  connection (snd (loop_body db rid query0 q s)) = connection s /\
  ctor_log (snd (loop_body db rid query0 q s)) = ctor_log s /\
  credentials (snd (loop_body db rid query0 q s)) = credentials s.
Proof.
  rewrite loop_body_run.
  destruct (translate _ _) as [[[q' rows] columns]|e|].
  - rewrite onFulfilled_run. auto.
  - rewrite onRejected_run. auto.
  - auto.
Qed.

Lemma for_of_frame (db : Client) (rid : option string) (query0 : string) :
  forall (qs : list string) (acc : list NSDatabase.IResult) (s : State),
    connection (snd (for_of qs (loop_body db rid query0) acc s)) = connection s /\
    ctor_log (snd (for_of qs (loop_body db rid query0) acc s)) = ctor_log s /\
    credentials (snd (for_of qs (loop_body db rid query0) acc s)) = credentials s.
Proof.
  induction qs as [|q rest IH]; intros acc s; simpl; [auto|].
  unfold await. pose proof (loop_body_frame db rid query0 q s) as Hb.
  destruct (loop_body db rid query0 q s) as [[r|e|] s1]; simpl in Hb; [|exact Hb..].
  destruct (IH (acc ++ [r]) s1) as (Hc & Hl & Hcr).
  destruct Hb as (Hc' & Hl' & Hcr'). repeat split; congruence.
Qed.


(** [query] on a driver whose handle is memoized touches neither the
    handle nor the constructor. *)
Lemma query_frame (s : State) (db : Client) (query0 : string) (opt : QueryOptions) :
  connection s = Some (Resolved db) ->
  connection (snd (query query0 opt s)) = Some (Resolved db) /\
  ctor_log (snd (query query0 opt s)) = ctor_log s.
Proof.
  intros Hc. rewrite query_unfold. unfold await.
  rewrite (open_existing s _ Hc).
  destruct (for_of_frame db (opt_requestId opt) query0 (statements query0) [] s)
    as (Hconn & Hlog & _).
  split; [now rewrite Hconn | exact Hlog].
Qed.

End FrameFacts.

(** ** Connection lifecycle *)

Section LifecycleProperties.

Context `{Collaborators}.

(** X1: on a driver without a memoized handle, [open] calls the client
    constructor exactly once, whether or not it throws, with the host,
    port, catalog, schema and user of the credentials, the engine
    [trino], the source [sqltools-driver], and basic authentication
    exactly when the password is a non-empty string. *)
Theorem open_constructs_from_credentials (s : State) :
  connection s = None ->
  exists o,
    ctor_log (snd (open s)) = ctor_log s ++ [o] /\
    o_host o = host (credentials s) /\
    o_port o = port (credentials s) /\
    o_catalog o = catalog (credentials s) /\
    o_schema o = schema (credentials s) /\
    o_user o = user (credentials s) /\
    o_engine o = "trino" /\
    o_source o = "sqltools-driver" /\
    basic_auth o =
      match password (credentials s) with
      | Some pw =>
          if String.eqb pw EmptyString then None
          else Some (user (credentials s), pw)
      | None => None
      end.
Proof.
  intros Hc. exists (connOptions (credentials s)). split.
  - unfold open. rewrite Hc. destruct (construct _ _); reflexivity.
  - unfold connOptions, truthy.
    destruct (password (credentials s)) as [pw|]; simpl; [|repeat split].
    destruct (String.eqb pw EmptyString); simpl; repeat split.
Qed.

(** X2: [close] really drops the handle: after [open] on a fresh driver
    and [close], the next [open] calls the constructor again and, when it
    does not throw, memoizes a new client instance built from the same
    options. *)
Theorem open_after_close_constructs_again (s s1 : State) (db : Client) :
  connection s = None ->
  open s = (Resolved db, s1) ->
  construct (ctor_log s1) (connOptions (credentials s1)) = None ->
  exists db' s3,
    open (snd (close s1)) = (Resolved db', s3) /\
    client_ref db' = S (client_ref db) /\
    client_opts db' = client_opts db /\
    connection s3 = Some (Resolved db') /\
    List.length (ctor_log s3) = S (S (List.length (ctor_log s))).
Proof.
  intros Hc Hopen Hk.
  unfold open in Hopen. rewrite Hc in Hopen.
  destruct (construct (ctor_log s) _) eqn:Hk0; [discriminate|].
  unfold promise in Hopen. injection Hopen as <- <-.
  simpl in Hk. unfold close, await, promise, modify. simpl.
  unfold open. simpl. rewrite Hk. unfold promise.
  eexists. eexists. split; [reflexivity|]. simpl.
  rewrite !length_app. simpl. repeat split; lia.
Qed.

End LifecycleProperties.

(** ** Result translation *)

Section TranslationProperties.

Context `{Collaborators}.



(** X5: the first error delivered wins.  An error in a [data] call that
    follows only error-free, fitting calls rejects the promise with that
    error, whatever is delivered afterwards; so does an error of the
    completion callback after error-free, fitting calls.  The rows
    gathered so far are not returned. *)
Theorem executeQuery_first_error_wins (db : Client) (s : State) (query0 : string)
    (e : JsError) :
  (exists pre d post,
     batches (execute db (exec_log s) query0) = pre ++ d :: post /\
     Forall error_free pre /\ Forall fits pre /\ d_error d = Some e) \/
  (Forall error_free (batches (execute db (exec_log s) query0)) /\
   Forall fits (batches (execute db (exec_log s) query0)) /\
   completion (execute db (exec_log s) query0) = Some (Some e)) ->
  executeQuery db query0 s = (Rejected e, log_exec query0 s).
Proof.
  unfold executeQuery, promise.
  intros [(pre & d & post & Hb & Herr & Hfit & Hd) | (Herr & Hfit & Hc)].
  - now rewrite (translate_error_in_data _ _ _ _ _ _ Hb Herr Hfit Hd).
  - now rewrite (translate_error_in_completion _ _ _ Herr Hfit Hc).
Qed.

(** X6: when the completion callback never fires and no [data] call
    carries an error, the promise of [executeQuery] never settles, however
    many rows were delivered. *)
Theorem executeQuery_pending_without_completion (db : Client) (s : State)
    (query0 : string) :
  Forall error_free (batches (execute db (exec_log s) query0)) ->
  completion (execute db (exec_log s) query0) = None ->
  executeQuery db query0 s = (Pending, log_exec query0 s).
Proof.
  intros Herr Hc. unfold executeQuery, promise.
  now rewrite (translate_pending _ _ Herr Hc).
Qed.

End TranslationProperties.

(** ** Query execution *)

Section QueryProperties.

Context `{Collaborators}.


(** X9: when [query] returns, it has generated exactly one identifier per
    parsed statement, the handle it opened is still memoized, and neither
    the constructor log nor the credentials changed after [open]. *)
Theorem query_effects (s s1 s2 : State) (db : Client) (query0 : string)
    (opt : QueryOptions) (l : list NSDatabase.IResult) :
  open s = (Resolved db, s1) ->
  query query0 opt s = (Resolved l, s2) ->
  ids s2 = ids s + List.length (statements query0) /\
  connection s2 = Some (Resolved db) /\
  ctor_log s2 = ctor_log s1 /\
  credentials s2 = credentials s.
Proof.
  intros Hopen Hq.
  pose proof (query_resolved_settles _ _ _ _ _ _ _ Hopen Hq) as Hall.
  destruct (query_run s s1 db query0 opt Hopen Hall) as (l' & Hq' & _).
  rewrite Hq in Hq'. injection Hq' as _ ->. simpl.
  pose proof (open_resolved_memoized _ _ _ Hopen) as Hm.
  destruct (open_frame s) as (Hcr & _ & Hids). rewrite Hopen in Hcr, Hids.
  simpl in Hcr, Hids. rewrite Hids, Hcr. auto.
Qed.

(** X10: the record of a statement that succeeded lists the names of the
    columns of the resolved tuple in order, holds its rows, and has as its
    only message the text reporting how many rows there are; it carries
    the identifier of the connection and neither an error flag nor a raw
    error. *)
Theorem successful_statement_record (s s1 s2 : State) (db : Client)
    (query0 : string) (opt : QueryOptions) (l : list NSDatabase.IResult)
    (i : nat) (q q' : string) (rows : list RowRecord) (columns : list Column) :
  open s = (Resolved db, s1) ->
  query query0 opt s = (Resolved l, s2) ->
  statements query0 !! i = Some q ->
  nth_outcome db s1 (statements query0) i q = Resolved (q', rows, columns) ->
  exists r,
    l !! i = Some r /\
    NSDatabase.cols r = map name columns /\
    NSDatabase.results r = rows /\
    NSDatabase.messages r =
      [prepareMessage
         ("Successfully executed. " +:+ pretty (List.length (NSDatabase.results r))
            +:+ " rows were affected.")] /\
    NSDatabase.connId r = getId (credentials s) /\
    NSDatabase.error r = None /\
    NSDatabase.rawError r = None.
Proof.
  intros Hopen Hq Hi Hout.
  pose proof (query_resolved_settles _ _ _ _ _ _ _ Hopen Hq) as Hall.
  destruct (query_run s s1 db query0 opt Hopen Hall) as (l' & Hq' & _ & Hidx).
  rewrite Hq in Hq'. injection Hq' as -> _.
  destruct (Hidx i q Hi) as (r & Hr & Hbody).
  exists r. split; [exact Hr|].
  rewrite (nth_record_fulfilled _ _ _ _ _ _ _ _ _ _ _ _ Hout Hbody). simpl.
  destruct (open_frame s) as (Hcr & _). rewrite Hopen in Hcr. simpl in Hcr.
  rewrite Hcr. repeat split.
Qed.

End QueryProperties.

(** ** Connection test *)

Section ConnectionTestProperties.

Context `{Collaborators}.

(** X11: when [open] is rejected, [testConnection] is rejected with the
    same error and the probe statement never reaches the engine. *)
Theorem testConnection_open_rejected (s s1 : State) (e : JsError) :
  open s = (Rejected e, s1) ->
  testConnection s = (TestRejected e, s1) /\
  exec_log s1 = exec_log s /\
  ids s1 = ids s.
Proof.
  intros Hopen. unfold testConnection. rewrite Hopen. split; [reflexivity|].
  destruct (open_frame s) as (_ & Hlog & Hids). rewrite Hopen in Hlog, Hids.
  auto.
Qed.

(** X12: with the connection open and the probe settling, [testConnection]
    runs the statements of [SELECT 1] and decides on the first one alone:
    it is rejected with the message text of that statement's error record
    when it failed, and resolves otherwise, whatever later statements
    did. *)
Theorem testConnection_verdict (s s1 : State) (db : Client) :
  open s = (Resolved db, s1) ->
  all_settle db s1 (statements "SELECT 1") ->
  exists s2,
    testConnection s = (probe_verdict db s1, s2) /\
    exec_log s2 = exec_log s1 ++ statements "SELECT 1".
Proof.
  intros Hopen Hall. unfold testConnection, probe_verdict. rewrite Hopen.
  pose proof (open_resolved_memoized _ _ _ Hopen) as Hm.
  pose proof (open_existing s1 _ Hm) as Hopen1.
  destruct (query_run s1 s1 db "SELECT 1" (mkQueryOptions None) Hopen1 Hall)
    as (l & Hq & Hlen & Hidx).
  rewrite Hq.
  exists (state_after s1 (statements "SELECT 1")
            (List.length (statements "SELECT 1"))).
  split; [|simpl; now rewrite firstn_all].
  destruct (statements "SELECT 1") as [|q rest] eqn:Hst.
  - destruct l; [reflexivity | discriminate].
  - destruct (Hidx 0 q eq_refl) as (r & Hr & Hbody).
    destruct l as [|r' l']; [discriminate|]. injection Hr as ->.
    rewrite state_after_0 in Hbody.
    destruct (translate q (execute db (exec_log s1) q))
      as [[[q' rows] columns]|e|] eqn:Ht.
    + rewrite (loop_body_fulfilled _ _ _ _ _ _ _ _ _ _ Ht Hbody). reflexivity.
    + rewrite (loop_body_rejected _ _ _ _ _ _ _ _ Ht Hbody). reflexivity.
    + exfalso. apply (Hall 0 q eq_refl). unfold nth_outcome.
      now rewrite take_0, app_nil_r.
Qed.

(** X13: [testConnection] calls [open] twice but constructs no client
    beyond the one its first [open] may construct, and when that [open]
    succeeded the handle is still memoized afterwards, whatever the
    verdict. *)
Theorem testConnection_constructs_once (s : State) :
  ctor_log (snd (testConnection s)) = ctor_log (snd (open s)) /\
  List.length (ctor_log (snd (testConnection s))) <= S (List.length (ctor_log s)) /\
  forall db s1,
    open s = (Resolved db, s1) ->
    connection (snd (testConnection s)) = Some (Resolved db).
Proof.
  assert (Hfirst : ctor_log (snd (testConnection s)) = ctor_log (snd (open s)) /\
                   forall db s1, open s = (Resolved db, s1) ->
                     connection (snd (testConnection s)) = Some (Resolved db)).
  { unfold testConnection. destruct (open s) as [[db|e|] s1] eqn:Hopen; simpl.
    - pose proof (open_resolved_memoized _ _ _ Hopen) as Hm.
      destruct (query_frame s1 db "SELECT 1" (mkQueryOptions None) Hm)
        as (Hconn & Hlog).
      destruct (query "SELECT 1" (mkQueryOptions None) s1) as [[l|e|] s2];
        simpl in *.
      + assert (Hs2 : forall o : TestOutcome * State, snd o = s2 ->
                  ctor_log (snd o) = ctor_log s1 /\
                  connection (snd o) = Some (Resolved db))
          by (intros o ->; auto).
        destruct l as [|r l]; [|destruct (flagged _)];
          (split; [apply Hs2; reflexivity|]);
          intros db' s1' [= <- _]; apply Hs2; reflexivity.
      + split; [exact Hlog|]. now intros db' s1' [= <- _].
      + split; [exact Hlog|]. now intros db' s1' [= <- _].
    - split; [reflexivity | discriminate].
    - split; [reflexivity | discriminate]. }
  destruct Hfirst as [Hlog Hconn]. split; [exact Hlog|]. split; [|exact Hconn].
  rewrite Hlog. unfold open. destruct (connection s); simpl; [lia|].
  destruct (construct _ _); simpl; rewrite length_app; simpl; lia.
Qed.

End ConnectionTestProperties.

(** ** Search and explorer adapters *)

(** X14: [searchItems] sends the same table search for tables and views,
    with the search term as its only parameter; for columns it sends the
    caller's extra parameters together with the search term, a [search]
    key among the extra parameters replacing the term; every other item
    type gets the empty list. *)
Theorem searchItems_parameters (search : string) (extraParams : gmap string JsValue) :
  searchItems TABLE search extraParams = searchItems VIEW search extraParams /\
  (exists p,
     searchItems TABLE search extraParams = searchResults (searchTables p) /\
     forall k, p !! k = if decide (k = "search") then Some (VStr search) else None) /\
  (exists p,
     searchItems COLUMN search extraParams = searchResults (searchColumns p) /\
     forall k,
       p !! k =
         match extraParams !! k with
         | Some v => Some v
         | None => if decide (k = "search") then Some (VStr search) else None
         end) /\
  (forall itemType,
     itemType <> TABLE -> itemType <> VIEW -> itemType <> COLUMN ->
     searchItems itemType search extraParams = no_items).
Proof.
  assert (Hsingle : forall k,
            search_param search !! k =
              if decide (k = "search") then Some (VStr search) else None).
  { intros k. unfold search_param. destruct (decide (k = "search")) as [->|Hne].
    - apply lookup_singleton_eq.
    - apply lookup_singleton_ne. congruence. }
  split; [reflexivity|]. split; [|split].
  - eexists. split; [reflexivity | exact Hsingle].
  - eexists. split; [reflexivity|]. intros k. unfold spread_params.
    rewrite lookup_union. rewrite Hsingle.
    destruct (extraParams !! k); destruct (decide _); reflexivity.
  - intros itemType Ht Hv Hc. destruct itemType; simpl; congruence.
Qed.

(** X15: the two nodes returned for a schema, handed back with the schema
    as their parent, list the tables and the views of that schema. *)
Theorem schema_children_expand (c : Credentials) (node parent : Item) :
  item_type node = SCHEMA ->
  exists tables views,
    getChildrenForItem c node parent = items [tables; views] /\
    getChildrenForItem c (as_item tables) node = queryResults (fetchTables node) /\
    getChildrenForItem c (as_item views) node = queryResults (fetchViews node).
Proof.
  intros Hs. unfold getChildrenForItem at 1. rewrite Hs.
  eexists. eexists. split; [reflexivity|]. split; reflexivity.
Qed.

(** * The further properties on the sample environments *)

Module MoreSampleFacts.

Import Sample.

Definition with_password : State :=
  mkState (mkCredentials "localhost" 8080 "hive" "default" "alice" (Some "secret"))
          None [] [] 0.



Lemma opened_again : open (fresh "localhost") = (Resolved client, opened).
Proof. reflexivity. Qed.

Lemma open_down :
  open (fresh "down") = (Rejected refused, log_ctor (connOptions (credentials_for "down")) (fresh "down")).
Proof. reflexivity. Qed.

Lemma three_resolves :
  exists l s2,
    query "SELECT 1; SELECT x; SELECT 2" no_options (fresh "localhost") =
      (Resolved l, s2).
Proof.
  assert (Hst : statements "SELECT 1; SELECT x; SELECT 2" =
                ["SELECT 1"; "SELECT x"; "SELECT 2"]) by (vm_compute; reflexivity).
  assert (Hall : all_settle client opened (statements "SELECT 1; SELECT x; SELECT 2")).
  { intros i q Hi. rewrite Hst in *.
    destruct i as [|[|[|i]]]; simpl in Hi; try discriminate;
      injection Hi as <-; vm_compute; discriminate. }
  destruct (query_run _ _ _ "SELECT 1; SELECT x; SELECT 2" no_options
              opened_again Hall) as (l & Hq & _).
  eauto.
Qed.

Lemma open_constructs_from_credentials_witness :
  exists o,
    ctor_log (snd (open with_password)) = [o] /\
    o_engine o = "trino" /\
    basic_auth o = Some ("alice", "secret").
Proof.
  destruct (open_constructs_from_credentials with_password eq_refl)
    as (o & Hlog & _ & _ & _ & _ & _ & Hengine & _ & Hauth).
  exists o. auto.
Defined.

Lemma open_after_close_constructs_again_witness :
  exists db' s3,
    open (snd (close opened)) = (Resolved db', s3) /\
    client_ref db' = 1 /\
    connection s3 = Some (Resolved db').
Proof.
  destruct (open_after_close_constructs_again (fresh "localhost") opened client
              eq_refl opened_again eq_refl)
    as (db' & s3 & Hopen & Href & _ & Hconn & _).
  exists db', s3. auto.
Defined.




Lemma executeQuery_first_error_wins_witness :
  executeQuery client "SELECT y" opened =
    (Rejected fetch_failed, log_exec "SELECT y" opened).
Proof.
  apply (executeQuery_first_error_wins client opened "SELECT y" fetch_failed).
  left. exists [], (mkDataCall (Some fetch_failed) [] []), [].
  repeat split; constructor.
Defined.

Lemma executeQuery_pending_without_completion_witness :
  executeQuery client "SELECT pg_sleep" opened =
    (Pending, log_exec "SELECT pg_sleep" opened).
Proof.
  apply (executeQuery_pending_without_completion client opened "SELECT pg_sleep").
  - constructor.
  - reflexivity.
Defined.


Lemma query_effects_witness :
  exists l s2,
    query "SELECT 1; SELECT x; SELECT 2" no_options (fresh "localhost") =
      (Resolved l, s2) /\
    ids s2 = 0 + List.length (statements "SELECT 1; SELECT x; SELECT 2") /\
    connection s2 = Some (Resolved client).
Proof.
  destruct three_resolves as (l & s2 & Hq).
  destruct (query_effects (fresh "localhost") opened s2 client
              "SELECT 1; SELECT x; SELECT 2" no_options l opened_again Hq)
    as (Hids & Hconn & _).
  exists l, s2. auto.
Defined.

Lemma successful_statement_record_witness :
  exists l s2 r,
    query "SELECT 1; SELECT x; SELECT 2" no_options (fresh "localhost") =
      (Resolved l, s2) /\
    l !! 0 = Some r /\
    NSDatabase.cols r = ["_col0"] /\
    NSDatabase.connId r = "alice@localhost".
Proof.
  destruct three_resolves as (l & s2 & Hq).
  destruct (successful_statement_record (fresh "localhost") opened s2 client
              "SELECT 1; SELECT x; SELECT 2" no_options l 0 "SELECT 1" "SELECT 1"
              [ {[ "_col0" := VNum 1 ]} ] [mkColumn "_col0" "integer"]
              opened_again Hq)
    as (r & Hr & Hcols & _ & _ & Hconn & _).
  - vm_compute. reflexivity.
  - vm_compute. reflexivity.
  - exists l, s2, r. auto.
Defined.

Lemma testConnection_open_rejected_witness :
  exists s1,
    testConnection (fresh "down") = (TestRejected refused, s1) /\
    exec_log s1 = [].
Proof.
  eexists.
  destruct (testConnection_open_rejected (fresh "down") _ refused open_down)
    as (Htest & Hlog & _).
  split; [exact Htest | exact Hlog].
Defined.

Lemma testConnection_constructs_once_witness :
  connection (snd (testConnection (fresh "localhost"))) = Some (Resolved client) /\
  List.length (ctor_log (snd (testConnection (fresh "localhost")))) <= 1.
Proof.
  destruct (testConnection_constructs_once (fresh "localhost"))
    as (_ & Hlen & Hconn).
  split; [exact (Hconn client opened opened_again) | exact Hlen].
Defined.

Lemma searchItems_parameters_witness :
  exists p,
    searchItems COLUMN "ord" {[ "search" := VStr "cust"; "limit" := VNum 10 ]} =
      searchResults (searchColumns p) /\
    p !! "search" = Some (VStr "cust") /\
    p !! "limit" = Some (VNum 10) /\
    searchItems SCHEMA "ord" ∅ = no_items.
Proof.
  destruct (searchItems_parameters "ord"
              {[ "search" := VStr "cust"; "limit" := VNum 10 ]})
    as (_ & _ & (p & Hp & Hlook) & Hother).
  exists p. split; [exact Hp|]. split; [|split].
  - rewrite Hlook. vm_compute. reflexivity.
  - rewrite Hlook. vm_compute. reflexivity.
  - destruct (searchItems_parameters "ord" ∅) as (_ & _ & _ & Hnone).
    apply Hnone; discriminate.
Defined.

Lemma schema_children_expand_witness :
  exists tables views,
    getChildrenForItem (credentials_for "localhost")
        (mkItem "default" SCHEMA None) (mkItem "hive" CONNECTED_CONNECTION None) =
      items [tables; views] /\
    getChildrenForItem (credentials_for "localhost") (as_item tables)
        (mkItem "default" SCHEMA None) =
      queryResults (fetchTables (mkItem "default" SCHEMA None)).
Proof.
  destruct (schema_children_expand (credentials_for "localhost")
              (mkItem "default" SCHEMA None)
              (mkItem "hive" CONNECTED_CONNECTION None) eq_refl)
    as (tables & views & Hitems & Htables & _).
  exists tables, views. auto.
Defined.

End MoreSampleFacts.

Module OutageFacts.

Import Outage.

Lemma outage_open :
  open (Sample.fresh "localhost") = (Resolved Sample.client, Sample.opened).
Proof. reflexivity. Qed.

Lemma testConnection_verdict_witness :
  exists s2,
    testConnection (Sample.fresh "localhost") =
      (TestFailed "503 Service Unavailable", s2) /\
    exec_log s2 = ["SELECT 1"].
Proof.
  destruct (testConnection_verdict (Sample.fresh "localhost") Sample.opened
              Sample.client outage_open) as (s2 & Htest & Hlog).
  - intros i q Hi. vm_compute. discriminate.
  - exists s2. split; [exact Htest | exact Hlog].
Defined.

End OutageFacts.
